(** * Vector store service: a shallow embedding of
    [server/services/vector_db_service.py].

    The service chunks a document, hands the chunks to a FAISS vector store,
    keeps the store in a process-wide dictionary and in a directory on disk,
    and answers top-k similarity queries.

    Conventions of the embedding:
    - a Python [dict] is a [gmap]; [self.vector_stores] is keyed by the file
      name as the caller gave it;
    - the directory [vector_store_dir] is a finite map from the name of a
      sub-directory to what it holds; every path the service builds is
      [vector_store_dir/<Path(file_name).stem>], so the map is keyed by the
      stem.  A stem names a sub-directory unless it is [""], ["."] or [".."]
      (the stems of file names such as [""], ["..pdf"] and ["...pdf"]): the
      operating system resolves these three to [vector_store_dir] itself or
      to its parent.  The map has an entry for such a stem too, which stands
      for the index files lying directly in that directory; [os.listdir]
      never yields these three names, and the map does not follow what
      [shutil.rmtree] on such a path does to the sub-directories.  A
      statement about the other directories or about the listing is
      therefore made for the stems that name a sub-directory
      ([entry_name]);
    - a directory carries a flag for whether the operating system lets the
      process change it, so that [save_local] and [shutil.rmtree] can fail;
    - a method is a computation in a state-and-exception monad: what it wrote
      before raising stays written, as in Python;
    - [__init__] and the [print] calls are not modelled: a property holds from
      any dictionary and any content of the directory;
    - the text splitter, the embedding client and the FAISS store are imported
      third-party objects: the service is written over an interface
      ([Backend]) that lists the calls the service makes on them, each of
      which may raise. *)

From Stdlib Require Import ZArith Ascii String.
From stdpp Require Import base option list gmap strings sorting.
From stdpp Require Import pretty.

Local Open Scope string_scope.
Local Open Scope Z_scope.

(** ** Python values, exceptions and results *)

Module Py.

(** The values a metadata dictionary holds ([Dict[str, Any]]): the service
    itself stores strings and integers there. *)
Inductive value :=
  | VStr (s : string)
  | VInt (n : Z).

#[global] Instance value_eq_dec : EqDecision value.
Proof. solve_decision. Defined.

(** Exceptions, by the kinds the design distinguishes; [OSError] is what the
    file system raises when it refuses an operation, [IndexError] what
    indexing an empty list raises. *)
Inductive exn :=
  | InvalidInput
  | EmbeddingFailure
  | DimensionMismatch
  | NotFound
  | LoadFailure
  | PersistenceFailure
  | OSError
  | IndexError.

#[global] Instance exn_eq_dec : EqDecision exn.
Proof. solve_decision. Defined.

(** The outcome of a call: a returned value or a raised exception. *)
Inductive result (A : Type) :=
  | Return (a : A)
  | Raise (e : exn).
Arguments Return {A} a.
Arguments Raise {A} e.

Definition result_map {A C} (f : A → C) (r : result A) : result C :=
  match r with Return a => Return (f a) | Raise e => Raise e end.

End Py.
Export Py.

(** ** [pathlib.PurePosixPath]: [name] and [stem] (Python 3.8 to 3.13) *)

Module Pathlib.

(** [str.split(sep)] for a one-character separator. *)
Fixpoint split_on (sep : ascii) (s : string) : list string :=
  match s with
  | EmptyString => [EmptyString]
  | String c s' =>
      if Ascii.eqb c sep then EmptyString :: split_on sep s'
      else match split_on sep s' with
           | x :: xs => String c x :: xs
           | [] => [String c EmptyString]
           end
  end.

(** The parts of a path: the components between slashes, the empty ones and
    ["."] dropped. *)
Definition parts (p : string) : list string :=
  filter (λ x, x ≠ "" ∧ x ≠ ".") (split_on "/" p).

(** [PurePath.name]: the final component, [""] when there is none. *)
Definition name (p : string) : string := List.last (parts p) "".

(** [str.rfind(c)]: the index of the last occurrence. *)
Fixpoint rfind (c : ascii) (s : string) : option nat :=
  match s with
  | EmptyString => None
  | String a s' =>
      match rfind c s' with
      | Some i => Some (S i)
      | None => if Ascii.eqb a c then Some 0%nat else None
      end
  end.

(** [PurePath.stem]: the name without its last suffix; a leading or a
    trailing dot starts no suffix. *)
Definition stem (p : string) : string :=
  let n := name p in
  match rfind "." n with
  | Some i =>
      if (0 <? i)%nat && (i <? String.length n - 1)%nat
      then String.substring 0 i n else n
  | None => n
  end.

End Pathlib.

(** ** Computations *)

(** State passing with exceptions: what a method wrote before it raised
    stays written, as in Python. *)
Section Monad.
Context {S : Type}.

Definition M (A : Type) : Type := S → result A * S.

Definition ret {A} (a : A) : M A := λ st, (Return a, st).
Definition raise {A} (e : exn) : M A := λ st, (Raise e, st).
Definition bind {A C} (m : M A) (k : A → M C) : M C :=
  λ st, match m st with
        | (Return a, st') => k a st'
        | (Raise e, st') => (Raise e, st')
        end.
(** [try: m  except Exception as e: h e] *)
Definition try_except {A} (m : M A) (h : exn → M A) : M A :=
  λ st, match m st with
        | (Return a, st') => (Return a, st')
        | (Raise e, st') => h e st'
        end.
(** A call into a collaborator that touches no state of the service. *)
Definition lift {A} (r : result A) : M A := λ st, (r, st).
Definition get : M S := λ st, (Return st, st).
Definition put (st : S) : M unit := λ _, (Return tt, st).

End Monad.
Arguments M S A : clear implicits.

Declare Scope py_scope.
Delimit Scope py_scope with py.
Notation "x <- m ;; k" := (bind m (λ x, k))
  (at level 100, m at next level, right associativity) : py_scope.
Notation "m ;;; k" := (bind m (λ _, k))
  (at level 100, right associativity) : py_scope.

(** ** Documents and search results *)

(** [langchain.schema.Document]. *)
Record Document := {
  page_content : string;
  metadata : gmap string value
}.

#[global] Instance Document_eq_dec : EqDecision Document.
Proof. solve_decision. Defined.

(** ** The imported collaborators *)

(** What the service imports and calls: the configured
    [RecursiveCharacterTextSplitter], [FAISS] with its embedding client, and
    the [UPLOAD_DIR] setting.  [Blob] is what [save_local] leaves in a store
    directory; [Score] is the type of the distances FAISS reports. *)
Class Backend := {
  FAISS : Type;
  Blob : Type;
  Score : Type;
  UPLOAD_DIR : string;
  (** [RecursiveCharacterTextSplitter(chunk_size, chunk_overlap, separators).split_text] *)
  split_text : nat → nat → list string → string → result (list string);
  (** [FAISS.from_documents(documents, embedding)] *)
  from_documents : list Document → result FAISS;
  (** the files [FAISS.save_local] writes *)
  save_local : FAISS → Blob;
  (** [FAISS.load_local] on the files of a directory *)
  load_local : Blob → result FAISS;
  (** [FAISS.similarity_search_with_score(query, k)] *)
  similarity_search_with_score : FAISS → string → Z → result (list (Document * Score));
  (** [index.ntotal] and [index.d] *)
  index_ntotal : FAISS → nat;
  index_d : FAISS → nat
}.

(** ** The service *)

(** The names an entry of a directory can have, and so the names
    [os.listdir] yields: every name but [""], ["."] and [".."]. *)
Definition entry_name (k : string) : Prop := k ≠ "" ∧ k ≠ "." ∧ k ≠ "..".

#[global] Instance entry_name_dec (k : string) : Decision (entry_name k).
Proof. unfold entry_name. apply _. Defined.

Section Service.
Context `{B : Backend}.
Local Open Scope py_scope.

(** A directory under [vector_store_dir]: the files in it, and whether the
    operating system lets the process change it. *)
Record StoreDir := {
  files : Blob;
  writable : bool
}.

(** The state a method reads and writes: [self.vector_stores] and the content
    of [self.vector_store_dir], by sub-directory name. *)
Record State := {
  vector_stores : gmap string FAISS;
  disk : gmap string StoreDir
}.

(** One entry of the list [search] returns. *)
Record SearchResult := {
  text : string;
  result_metadata : gmap string value;
  score : Score
}.

(** The answer of [get_store_info]. *)
Record StoreInfo := {
  info_file_name : string;
  total_chunks : nat;
  embedding_dimension : nat
}.

(** The splitter's configuration in [__init__]. *)
Definition chunk_size : nat := 1000.
Definition chunk_overlap : nat := 200.
Definition newline : string := String "010" "".
Definition separators : list string :=
  [newline +:+ newline; newline; ". "; " "; ""].

(** [os.path.join(UPLOAD_DIR, "vector_stores")] and
    [os.path.join(self.vector_store_dir, safe_name)] *)
Definition vector_store_dir : string := UPLOAD_DIR +:+ "/vector_stores".
Definition store_path (safe_name : string) : string :=
  vector_store_dir +:+ "/" +:+ safe_name.

(** *** The file system under [vector_store_dir] *)

(** [os.path.exists(store_path)] *)
Definition path_exists (safe_name : string) : M State bool :=
  st <- get ;; ret (bool_decide (is_Some (disk st !! safe_name))).

(** [vector_store.save_local(store_path)]: creates the directory if needed and
    (over)writes its files; the operating system refuses on a directory it
    protects. *)
Definition fs_save_local (safe_name : string) (vs : FAISS) : M State unit :=
  st <- get ;;
  match disk st !! safe_name with
  | Some d =>
      if writable d
      then put {| vector_stores := vector_stores st;
                  disk := <[safe_name := {| files := save_local vs; writable := true |}]> (disk st) |}
      else raise OSError
  | None =>
      put {| vector_stores := vector_stores st;
             disk := <[safe_name := {| files := save_local vs; writable := true |}]> (disk st) |}
  end.

(** [FAISS.load_local(store_path, ...)] *)
Definition fs_load_local (safe_name : string) : M State FAISS :=
  st <- get ;;
  match disk st !! safe_name with
  | Some d => lift (load_local (files d))
  | None => raise OSError
  end.

(** [shutil.rmtree(store_path)] *)
Definition rmtree (safe_name : string) : M State unit :=
  st <- get ;;
  match disk st !! safe_name with
  | Some d =>
      if writable d
      then put {| vector_stores := vector_stores st; disk := delete safe_name (disk st) |}
      else raise OSError
  | None => raise OSError
  end.

(** *** The methods *)

(** [self.vector_stores[file_name] = vector_store] *)
Definition cache_store (file_name : string) (vs : FAISS) : M State unit :=
  st <- get ;;
  put {| vector_stores := <[file_name := vs]> (vector_stores st); disk := disk st |}.

(** [del self.vector_stores[file_name]] under [if file_name in self.vector_stores] *)
Definition cache_evict (file_name : string) : M State unit :=
  st <- get ;;
  put {| vector_stores := delete file_name (vector_stores st); disk := disk st |}.

(** The metadata of chunk [idx] (lines 90-96): the three keys the service
    sets, then [doc_metadata.update(metadata)] when [metadata] is truthy. *)
Definition doc_metadata (file_name : string) (total idx : nat)
    (metadata : option (gmap string value)) : gmap string value :=
  let base : gmap string value :=
    <["total_chunks" := VInt (Z.of_nat total)]>
      (<["chunk_index" := VInt (Z.of_nat idx)]>
         {["source" := VStr file_name]}) in
  match metadata with
  | Some m => if decide (m = ∅) then base else m ∪ base
  | None => base
  end.

(** The loop of lines 88-101: one [Document] per chunk, in order. *)
Definition make_documents (chunks : list string) (file_name : string)
    (metadata : option (gmap string value)) : list Document :=
  imap (λ idx chunk,
          {| page_content := chunk;
             metadata := doc_metadata file_name (length chunks) idx metadata |})
       chunks.

(** [save_vector_store] (lines 119-138): the directory is named by the stem
    of the file name; the path is returned. *)
Definition save_vector_store (file_name : string) (vs : FAISS) : M State string :=
  let safe_name := Pathlib.stem file_name in
  fs_save_local safe_name vs ;;;
  ret (store_path safe_name).

(** [create_vector_store_from_text] (lines 63-117): chunk, wrap the chunks in
    documents, build the store, put it in the dictionary, then save it. *)
Definition create_vector_store_from_text (text : string) (file_name : string)
    (metadata : option (gmap string value)) : M State FAISS :=
  chunks <- lift (split_text chunk_size chunk_overlap separators text) ;;
  let documents := make_documents chunks file_name metadata in
  vector_store <- lift (from_documents documents) ;;
  cache_store file_name vector_store ;;;
  _ <- save_vector_store file_name vector_store ;;
  ret vector_store.

(** [load_vector_store] (lines 140-179): the dictionary first; otherwise the
    directory, when it exists, inside [try]; the handler returns [None]. *)
Definition load_vector_store (file_name : string) : M State (option FAISS) :=
  st <- get ;;
  match vector_stores st !! file_name with
  | Some vs => ret (Some vs)
  | None =>
      let safe_name := Pathlib.stem file_name in
      found <- path_exists safe_name ;;
      if negb found then ret None
      else
        try_except
          (vector_store <- fs_load_local safe_name ;;
           cache_store file_name vector_store ;;;
           ret (Some vector_store))
          (λ _, ret None)
  end.

(** [search] (lines 181-224); [top_k] defaults to 5 in the source. *)
Definition search (query : string) (file_name : string) (top_k : Z)
    : M State (list SearchResult) :=
  vector_store <- load_vector_store file_name ;;
  match vector_store with
  | None => ret []
  | Some vs =>
      results <- lift (similarity_search_with_score vs query top_k) ;;
      ret (map (λ r : Document * Score,
                  {| text := page_content r.1;
                     result_metadata := metadata r.1;
                     score := r.2 |})
               results)
  end.

(** [delete_vector_store] (lines 226-255): the whole body is inside [try];
    the handler returns [False]. *)
Definition delete_vector_store (file_name : string) : M State bool :=
  try_except
    (cache_evict file_name ;;;
     let safe_name := Pathlib.stem file_name in
     found <- path_exists safe_name ;;
     if found then (rmtree safe_name ;;; ret true) else ret false)
    (λ _, ret false).

(** [list_vector_stores] (lines 257-277): the sub-directories of
    [vector_store_dir], in no particular order; [os.listdir] yields the
    names of the entries, never [""], ["."] or [".."]. *)
Definition list_vector_stores : M State (list string) :=
  st <- get ;; ret (filter entry_name (elements (dom (disk st)))).

(** [get_store_info] (lines 279-301) *)
Definition get_store_info (file_name : string) : M State (option StoreInfo) :=
  vector_store <- load_vector_store file_name ;;
  match vector_store with
  | None => ret None
  | Some vs =>
      ret (Some {| info_file_name := file_name;
                   total_chunks := index_ntotal vs;
                   embedding_dimension := index_d vs |})
  end.

(** The state a successful ingestion leaves. *)
Definition ingested (st : State) (file_name : string) (vs : FAISS) : State :=
  {| vector_stores := <[file_name := vs]> (vector_stores st);
     disk := <[Pathlib.stem file_name :=
                 {| files := save_local vs; writable := true |}]> (disk st) |}.

(** A restart of the process: the dictionary is empty again, the disk stays. *)
Definition clear_cache (st : State) : State :=
  {| vector_stores := ∅; disk := disk st |}.

End Service.

(** ** Statements of the design that the service is checked against *)

Section Statements.
Context `{B : Backend}.

(** The store of [file_name] cannot be obtained: it is not in the
    dictionary, and its directory is missing or does not load. *)
Definition unavailable (st : State) (file_name : string) : Prop :=
  vector_stores st !! file_name = None ∧
  (disk st !! Pathlib.stem file_name = None ∨
   ∃ d e, disk st !! Pathlib.stem file_name = Some d ∧
          load_local (files d) = Raise e).

(** The directory of [file_name] exists and its files do not load. *)
Definition corrupted (st : State) (file_name : string) : Prop :=
  vector_stores st !! file_name = None ∧
  ∃ d e, disk st !! Pathlib.stem file_name = Some d ∧
         load_local (files d) = Raise e.

(** The store of [file_name] is nowhere. *)
Definition absent (st : State) (file_name : string) : Prop :=
  vector_stores st !! file_name = None ∧
  disk st !! Pathlib.stem file_name = None.

(** "[search] on a store that cannot be obtained returns an error, not an
    empty list." *)
Definition search_reports_unavailable_store (st : State)
    (query file_name : string) (top_k : Z) : Prop :=
  unavailable st file_name →
  ∃ e st', search query file_name top_k st = (Raise e, st').

(** "[load_vector_store] on a corrupted directory answers something else than
    on a missing one." *)
Definition load_tells_corrupted_from_absent (st : State) (file_name : string)
    : Prop :=
  corrupted st file_name →
  ∀ st_absent, absent st_absent file_name →
    (load_vector_store file_name st).1 ≠
    (load_vector_store file_name st_absent).1.

(** "Two ingestions whose names have the same stem leave one record in the
    dictionary and one on disk", from an empty service. *)
Definition same_stem_one_record (text1 file_name1 text2 file_name2 : string)
    (md : option (gmap string value)) : Prop :=
  Pathlib.stem file_name1 = Pathlib.stem file_name2 →
  ∀ v1 v2 st1 st2,
    create_vector_store_from_text text1 file_name1 md
      {| vector_stores := ∅; disk := ∅ |} = (Return v1, st1) →
    create_vector_store_from_text text2 file_name2 md st1 = (Return v2, st2) →
    size (vector_stores st2) = 1%nat ∧ size (disk st2) = 1%nat.

(** "Ingesting the empty text succeeds and gives a store of size zero that
    answers every query with the empty list." *)
Definition empty_text_is_ingested (st : State) (file_name : string)
    (md : option (gmap string value)) : Prop :=
  ∃ vs st1,
    create_vector_store_from_text "" file_name md st = (Return vs, st1) ∧
    index_ntotal vs = 0%nat ∧
    ∀ query top_k, 0 < top_k →
      search query file_name top_k st1 = (Return [], st1).

(** "The chunk ordinal attached to the [i]-th stored chunk is [i]." *)
Definition ordinals_count_from_zero (text file_name : string)
    (md : option (gmap string value)) : Prop :=
  ∀ chunks,
    split_text chunk_size chunk_overlap separators text = Return chunks →
    ∀ (i : nat) doc,
      make_documents chunks file_name md !! i = Some doc →
      metadata doc !! "chunk_index" = Some (VInt (Z.of_nat i)).

End Statements.

(** ** The chunker of the design *)

Module Chunker.

(** The service imports LangChain's [RecursiveCharacterTextSplitter]; its
    code is not part of the repository.  This module is the Chunker as the
    design describes it (section 4.1): the text is cut into units at the
    current separator, units are accumulated greedily while the chunk stays
    within [size], a closed chunk hands its last [overlap] characters to the
    next one, and a separator that yields a chunk over [size] gives way to the
    next, finer one; the last resort cuts between any two characters. *)

(** [is_prefix p s]: [s] starts with [p]. *)
Fixpoint is_prefix (p s : list ascii) : bool :=
  match p, s with
  | [], _ => true
  | _ :: _, [] => false
  | a :: p', b :: s' => Ascii.eqb a b && is_prefix p' s'
  end.

(** Modelled from the spec: the units of a text for a separator (the
    splitter's code is missing).  The text is cut after each
    occurrence of the separator, scanning left to right; [acc] is the unit
    being read, backwards.  The empty separator cuts after every character. *)
Fixpoint units_from (rsep acc s : list ascii) : list (list ascii) :=
  match s with
  | [] => match acc with [] => [] | _ => [rev acc] end
  | c :: s' =>
      let acc' := c :: acc in
      if is_prefix rsep acc' then rev acc' :: units_from rsep [] s'
      else units_from rsep acc' s'
  end.

Definition units (sep s : list ascii) : list (list ascii) :=
  units_from (rev sep) [] s.

(** The last [n] characters. *)
Definition lastn (n : nat) (s : list ascii) : list ascii :=
  drop (length s - n) s.

(** Modelled from the spec: the greedy accumulation (the splitter's code is
    missing).  [cur] is the open chunk; a unit that would take it over [size]
    closes it, and the next chunk opens with the last [overlap] characters of
    the closed one. *)
Fixpoint pack (size overlap : nat) (cur : list ascii) (us : list (list ascii))
    : list (list ascii) :=
  match us with
  | [] => [cur]
  | u :: us' =>
      if (length cur + length u <=? size)%nat
      then pack size overlap (cur ++ u) us'
      else cur :: pack size overlap (lastn overlap cur ++ u) us'
  end.

(** Modelled from the spec: the chunks of a sequence of units (the
    splitter's code is missing); no unit, no chunk. *)
Definition chunks_of (size overlap : nat) (us : list (list ascii))
    : list (list ascii) :=
  match us with
  | [] => []
  | u :: us' => pack size overlap u us'
  end.

(** Every chunk is within [size]. *)
Definition fits (size : nat) (chunks : list (list ascii)) : bool :=
  forallb (λ c, (length c <=? size)%nat) chunks.

(** Modelled from the spec: the fallback through the separators (the
    splitter's code is missing).  They are tried coarsest first; one whose
    chunks do not all fit gives way to the next; the last resort is the cut
    between any two characters. *)
Fixpoint split_with (seps : list (list ascii)) (s : list ascii)
    (size overlap : nat) : list (list ascii) :=
  match seps with
  | [] => chunks_of size overlap (units [] s)
  | sep :: rest =>
      let chunks := chunks_of size overlap (units sep s) in
      if fits size chunks then chunks else split_with rest s size overlap
  end.

(** Modelled from the spec: the separators of the design, paragraph break,
    line break, period and space, space, and the empty separator (the same
    list the service configures). *)
Definition separators : list (list ascii) :=
  [ ["010"; "010"]; ["010"]; ["."; " "]; [" "]; [] ]%char.

(** Modelled from the spec: [split(text, chunk_size, overlap)] of the Chunker
    (the splitter's code is missing); [overlap < chunk_size] is required of
    the caller. *)
Definition split (s : list ascii) (size overlap : nat)
    : result (list (list ascii)) :=
  if (overlap <? size)%nat then Return (split_with separators s size overlap)
  else Raise InvalidInput.

(** Modelled from the spec: concatenation with the overlaps removed.  Every
    chunk but the first gives up the characters it shares with the chunk
    before it: [overlap] of them, or all of the chunk before when that one is
    shorter. *)
Fixpoint drop_overlaps (overlap : nat) (prev : list ascii)
    (chunks : list (list ascii)) : list ascii :=
  match chunks with
  | [] => []
  | c :: rest => drop (overlap `min` length prev) c ++ drop_overlaps overlap c rest
  end.

Definition reassemble (overlap : nat) (chunks : list (list ascii)) : list ascii :=
  match chunks with
  | [] => []
  | c :: rest => c ++ drop_overlaps overlap c rest
  end.

(** Every chunk but the first starts with the last [overlap] characters of
    the chunk before it. *)
Fixpoint overlapping (overlap : nat) (prev : list ascii)
    (chunks : list (list ascii)) : Prop :=
  match chunks with
  | [] => True
  | c :: rest => lastn overlap prev `prefix_of` c ∧ overlapping overlap c rest
  end.

(** The chunks overlap as the design says: what [reassemble] drops from a
    chunk is the end of the chunk before it. *)
Definition chained (overlap : nat) (chunks : list (list ascii)) : Prop :=
  match chunks with
  | [] => True
  | c :: rest => overlapping overlap c rest
  end.

End Chunker.

(** ** The vector index of the design *)

Module VectorIndex.

(** The service uses the FAISS index inside LangChain's vector store; its
    code is not part of the repository.  This module is the VectorIndex as the
    design describes it (section 4.3), by exhaustive search.  Components and
    distances are integers (a fixed-point grid), and the metric is a
    parameter: the design fixes neither. *)

(** An embedding vector. *)
Definition vector := list Z.

(** Modelled from the spec: the index (the code of FAISS is missing): the
    vectors of one document, the position of a vector being the ordinal of
    its chunk, and their common dimension. *)
Record t := {
  dim : nat;
  vectors : list vector
}.

Definition size (ix : t) : nat := length (vectors ix).

(** Modelled from the spec: [build(vectors)] for the provider's dimension [d]
    (the code of FAISS is missing); zero vectors are legal. *)
Definition build (d : nat) (vs : list vector) : result t :=
  if forallb (λ v, (length v =? d)%nat) vs
  then Return {| dim := d; vectors := vs |}
  else Raise DimensionMismatch.

(** The order the candidates are sorted by: smaller distance first, and the
    lower ordinal first among equal distances. *)
Definition closer (p q : nat * Z) : Prop :=
  p.2 < q.2 ∨ (p.2 = q.2 ∧ (p.1 ≤ q.1)%nat).

#[global] Instance closer_dec : RelDecision closer.
Proof. intros p q. unfold closer. apply _. Defined.

(** The order as the answers show it: ascending distance, the lower ordinal
    first on a tie. *)
Definition before (p q : nat * Z) : Prop :=
  p.2 < q.2 ∨ (p.2 = q.2 ∧ (p.1 < q.1)%nat).

Section Metric.
Variable distance : vector → vector → Z.

(** Modelled from the spec: every vector of the index with its ordinal and
    its distance to the query, best first (the code of FAISS is missing). *)
Definition ranking (ix : t) (q : vector) : list (nat * Z) :=
  merge_sort closer (imap (λ i v, (i, distance q v)) (vectors ix)).

(** Modelled from the spec: [search(query, top_k)] (the code of FAISS is
    missing).  A [top_k] of zero or less and a query of another dimension are
    errors; a [top_k] above the size of the index is clamped to it. *)
Definition search (ix : t) (q : vector) (top_k : Z) : result (list (nat * Z)) :=
  if top_k <=? 0 then Raise InvalidInput
  else if negb (length q =? dim ix)%nat then Raise DimensionMismatch
  else Return (take (Z.to_nat top_k `min` size ix) (ranking ix q)).

End Metric.

(** The squared Euclidean distance. *)
Fixpoint l2 (a b : vector) : Z :=
  match a, b with
  | x :: a', y :: b' => (x - y) * (x - y) + l2 a' b'
  | _, _ => 0
  end.

End VectorIndex.

(** ** A deterministic instance of the collaborators *)

Module Fixture.

(** An instance of the collaborators, built from the chunker and the index
    of the design, with a deterministic embedding provider (section 9) and a
    store directory that holds two artifacts (section 4.4).  The theorems
    about the service hold for every instance; this one is where they are
    run. *)

(** The provider's dimension. *)
Definition dimension : nat := 2.

Definition code_sum (s : string) : Z :=
  foldr (λ c acc, Z.of_nat (nat_of_ascii c) + acc) 0 (list_ascii_of_string s).

(** Modelled from the spec: a deterministic [embed_one] (the embedding client
    is a network service): the length of the text and the sum of its
    character codes. *)
Definition embed (s : string) : VectorIndex.vector :=
  [Z.of_nat (String.length s); code_sum s].

(** Modelled from the spec: the vector store (the code of LangChain's FAISS
    wrapper is missing): the index and the documents, by ordinal. *)
Record store := {
  index : VectorIndex.t;
  docs : list Document
}.

(** Modelled from the spec: the two artifacts of a store directory, the
    serialized index and the sidecar of documents (the persistence code of
    the FAISS wrapper is missing); [None] is a file that is missing or does
    not deserialize. *)
Record artifacts := {
  index_file : option VectorIndex.t;
  sidecar_file : option (list Document)
}.

(** Modelled from the spec: the configured splitter, on strings. *)
Definition split_text (size overlap : nat) (seps : list string) (text : string)
    : result (list string) :=
  if (overlap <? size)%nat
  then Return (string_of_list_ascii <$>
                 Chunker.split_with (list_ascii_of_string <$> seps)
                   (list_ascii_of_string text) size overlap)
  else Raise InvalidInput.

(** Modelled from the spec: the chunks are embedded and the index is built
    from the embeddings, one vector per document. *)
Definition from_documents (documents : list Document) : result store :=
  match VectorIndex.build dimension (embed ∘ page_content <$> documents) with
  | Return ix => Return {| index := ix; docs := documents |}
  | Raise e => Raise e
  end.

(** Modelled from the spec: writing and reading a store directory; reading
    needs both artifacts and the provider's dimension. *)
Definition save_local (s : store) : artifacts :=
  {| index_file := Some (index s); sidecar_file := Some (docs s) |}.

Definition load_local (a : artifacts) : result store :=
  match index_file a, sidecar_file a with
  | Some ix, Some ds =>
      if (VectorIndex.dim ix =? dimension)%nat
      then Return {| index := ix; docs := ds |}
      else Raise LoadFailure
  | _, _ => Raise LoadFailure
  end.

(** Modelled from the spec: the query is embedded, the index searched, and
    each ordinal mapped back to its document. *)
Definition similarity_search_with_score (s : store) (query : string) (k : Z)
    : result (list (Document * Z)) :=
  match VectorIndex.search VectorIndex.l2 (index s) (embed query) k with
  | Return hits =>
      Return (omap (λ h : nat * Z, (λ d, (d, h.2)) <$> docs s !! h.1) hits)
  | Raise e => Raise e
  end.

(** The instance: [UPLOAD_DIR] is ["uploads"]. *)
#[global] Instance backend : Backend :=
  Build_Backend store artifacts Z "uploads"
    split_text from_documents save_local load_local
    similarity_search_with_score
    (λ s, VectorIndex.size (index s))
    (λ s, VectorIndex.dim (index s)).

(** *** States and inputs the properties are run on *)

(** A service that holds nothing. *)
Definition empty : State := {| vector_stores := ∅; disk := ∅ |}.

(** A directory [notes] whose two artifacts do not deserialize. *)
Definition broken_dir : StoreDir :=
  {| files := ({| index_file := None; sidecar_file := None |} : artifacts);
     writable := true |}.

(** A service with that directory and nothing in the dictionary. *)
Definition broken : State :=
  {| vector_stores := ∅; disk := {["notes" := broken_dir]} |}.

(** A directory [report] that the operating system protects. *)
Definition protected : State :=
  {| vector_stores := ∅;
     disk := {["report" := {| files := files broken_dir; writable := false |}]} |}.

(** A text of two paragraphs. *)
Definition fox : string :=
  "The quick brown fox. Jumps over" +:+ newline +:+ newline +:+ "the lazy dog.".

(** The store that ingestion built. *)
Definition report_store : store :=
  {| index := {| VectorIndex.dim := dimension;
                 VectorIndex.vectors := [embed fox] |};
     docs := make_documents [fox] "report.pdf" None |}.

(** The service after [fox] was ingested as [report.pdf]. *)
Definition with_report : State := ingested empty "report.pdf" report_store.

(** The store and the service after [report.txt] was ingested next. *)
Definition beta_store : store :=
  {| index := {| VectorIndex.dim := dimension;
                 VectorIndex.vectors := [embed "beta"] |};
     docs := make_documents ["beta"] "report.txt" None |}.

(** The service after both ingestions. *)
Definition with_both : State := ingested with_report "report.txt" beta_store.

(** Caller metadata as the upload route passes it, and caller metadata that
    defines the key of the ordinal. *)
Definition route_metadata : gmap string value :=
  {["display_name" := VStr "report.pdf"]}.
Definition clashing_metadata : gmap string value :=
  {["chunk_index" := VInt 7]}.

(** The stores built from [fox] and from a short text with these. *)
Definition tagged_store : store :=
  {| index := {| VectorIndex.dim := dimension;
                 VectorIndex.vectors := [embed fox] |};
     docs := make_documents [fox] "report.pdf" (Some route_metadata) |}.

Definition clashing_store : store :=
  {| index := {| VectorIndex.dim := dimension;
                 VectorIndex.vectors := [embed "hello world"] |};
     docs := make_documents ["hello world"] "doc.pdf" (Some clashing_metadata) |}.

(** The store built from no document. *)
Definition empty_store : store :=
  {| index := {| VectorIndex.dim := dimension; VectorIndex.vectors := [] |};
     docs := [] |}.

(** Three vectors, two of them at the same distance from [[0; 0]]. *)
Definition three_vectors : VectorIndex.t :=
  {| VectorIndex.dim := 2;
     VectorIndex.vectors := [[3; 4]; [1; 0]; [0; 5]] |}.

(** The service after [report.txt] was deleted from [with_both]: the
    directory is gone, [report.pdf] is still in the dictionary. *)
Definition after_delete_txt : State :=
  {| vector_stores := delete "report.txt" (vector_stores with_both);
     disk := delete "report" (disk with_both) |}.

(** A text of 240 words, longer than the chunk size, the chunks the
    splitter cuts it into and the store built from them. *)
Definition long_text : string :=
  Eval vm_compute in String.concat " " (replicate 240 "word").

Definition long_chunks : list string :=
  Eval vm_compute in
    match split_text chunk_size chunk_overlap separators long_text with
    | Return chunks => chunks
    | Raise _ => []
    end.

Definition long_store : store :=
  {| index := {| VectorIndex.dim := dimension;
                 VectorIndex.vectors := embed <$> long_chunks |};
     docs := make_documents long_chunks "long.pdf" (Some route_metadata) |}.

End Fixture.

(** ** The store builder on an empty list, as LangChain has it *)

Module Langchain.
Import Fixture.

(** [FAISS.from_documents] of LangChain creates the index for the dimension
    of the first embedding ([len(embeddings[0])]), so a list without
    documents raises [IndexError] before any index exists.  This is the
    instance above with that behaviour on the empty list; it is not the
    instance of the design, which accepts it. *)
Definition from_documents (documents : list Document) : result store :=
  match documents with
  | [] => Raise IndexError
  | _ => Fixture.from_documents documents
  end.

Definition backend : Backend :=
  Build_Backend store artifacts Z "uploads"
    split_text from_documents save_local load_local
    similarity_search_with_score
    (λ s, VectorIndex.size (index s))
    (λ s, VectorIndex.dim (index s)).

(** A service over it that holds nothing. *)
Definition empty : @State backend := @Build_State backend ∅ ∅.

End Langchain.

(** ** What a method leaves alone *)

Section Frames.
Context `{B : Backend}.

(** Between two states, nothing changed in the dictionary for any other
    file name. *)
Definition other_entries_kept (file_name : string) (st st' : State) : Prop :=
  ∀ g, g ≠ file_name → vector_stores st' !! g = vector_stores st !! g.

(** Between two states, no sub-directory changed but the one of
    [file_name]. *)
Definition other_directories_kept (file_name : string) (st st' : State) : Prop :=
  ∀ k, entry_name k → k ≠ Pathlib.stem file_name → disk st' !! k = disk st !! k.

End Frames.

(** ** File names *)

Module Names.

(** [c in s] *)
Definition contains (c : ascii) (s : string) : Prop :=
  c ∈ list_ascii_of_string s.

(** A name with no directory part and no suffix: not empty, no slash, no dot. *)
Definition plain (s : string) : Prop :=
  s ≠ "" ∧ ¬ contains "/" s ∧ ¬ contains "." s.

End Names.

(** ** The upload routes: [server/routes/pdf_routes.py] *)

Module Http.

(** [fastapi.HTTPException] *)
Record HTTPException := {
  status_code : nat;
  detail : string
}.

(** An exception in flight in a route: an [HTTPException], or any other
    exception, of which a route only ever reads [str(e)]. *)
Inductive raised :=
  | Http (e : HTTPException)
  | Other (msg : string).

(** The outcome of a call in a route. *)
Inductive outcome (A : Type) :=
  | Done (a : A)
  | Raised (r : raised).
Arguments Done {A} a.
Arguments Raised {A} r.

Section Monad.
Context {W : Type}.

(** Computations of a route, over the state [W]; as in Python, what was
    written before an exception stays written. *)
Definition H (A : Type) : Type := W → outcome A * W.

Definition hret {A} (a : A) : H A := λ w, (Done a, w).
Definition hraise {A} (r : raised) : H A := λ w, (Raised r, w).
Definition hbind {A C} (m : H A) (k : A → H C) : H C :=
  λ w, match m w with
       | (Done a, w') => k a w'
       | (Raised r, w') => (Raised r, w')
       end.
(** [try: m  except Exception as e: h e] *)
Definition htry {A} (m : H A) (h : raised → H A) : H A :=
  λ w, match m w with
       | (Done a, w') => (Done a, w')
       | (Raised r, w') => h r w'
       end.
(** [try: m  finally: cleanup]: the cleanup runs whatever [m] did, and an
    exception of the cleanup takes the place of the outcome of [m]. *)
Definition hfinally {A} (m : H A) (cleanup : H unit) : H A :=
  λ w, match m w with
       | (o, w') =>
           match cleanup w' with
           | (Done _, w'') => (o, w'')
           | (Raised r, w'') => (Raised r, w'')
           end
       end.
(** A call that touches no state. *)
Definition hlift {A} (o : outcome A) : H A := λ w, (o, w).

End Monad.
Arguments H W A : clear implicits.

End Http.
Export Http.

Declare Scope route_scope.
Delimit Scope route_scope with route.
Notation "x <- m ;; k" := (hbind m (λ x, k))
  (at level 100, m at next level, right associativity) : route_scope.
Notation "m ;;; k" := (hbind m (λ _, k))
  (at level 100, right associativity) : route_scope.

(** The files under a directory, by path. *)
Abbreviation Files := (gmap string (list Byte.byte)).

(** What [UploadFile.read(8192)] gives, call after call: a chunk (the empty
    chunk at the end of the upload) or an exception. *)
Inductive read :=
  | Data (chunk : list Byte.byte)
  | ReadError (msg : string).

(** How [open(path, "wb")] fails, when it does: because a directory is at
    the path, and then [os.path.exists] is true of the path and [os.remove]
    raises on it as well, with the same message; or for another reason, and
    then a file at the path, if there is one, can still be removed. *)
Inductive open_failure :=
  | IsADirectory (msg : string)
  | OtherFailure (msg : string).

Definition failure_message (failure : open_failure) : string :=
  match failure with
  | IsADirectory msg => msg
  | OtherFailure msg => msg
  end.

(** The settings and the Python runtime the routes rely on:
    [config.settings.MAX_FILE_SIZE] and [OPENAI_API_KEY], the way
    [open(path, "wb")] fails for a path (if it does), [str(e)] of an
    exception, and [len] of a [str] (its number of code points).  Writing
    to an open file and removing a file are taken to succeed; what a route
    finds at a path when it opens it is what it finds there when it cleans
    up. *)
Class Runtime := {
  MAX_FILE_SIZE : Z;
  OPENAI_API_KEY : option string;
  open_error : string → option open_failure;
  str_exn : exn → string;
  str_http : HTTPException → string;
  str_len : string → nat
}.

(** [services.pdf_service]: the loader the routes call.  Its code is not
    among the sources; the routes are written over the calls they make on
    it, each of which may raise.  A call that reads the uploaded file is
    given the files. *)
Class Loader := {
  GeminiFile : Type;
  FileInfo : Type;
  Preview : Type;
  Structured : Type;
  Page : Type;
  (** [file.name], [file.display_name], [file.uri] *)
  gemini_name : GeminiFile → string;
  gemini_display_name : GeminiFile → string;
  gemini_uri : GeminiFile → value;
  (** [get_pdf_loader()] *)
  get_pdf_loader : outcome unit;
  loader_upload_pdf : Files → string → string → outcome GeminiFile;
  loader_wait_for_file_processing : GeminiFile → outcome GeminiFile;
  loader_get_file_info : GeminiFile → outcome FileInfo;
  loader_extract_full_text : Files → GeminiFile → string → outcome string;
  loader_extract_text_preview : GeminiFile → outcome Preview;
  loader_extract_structured_content : GeminiFile → outcome Structured;
  loader_extract_text_by_pages : GeminiFile → outcome (list Page);
  loader_delete_file : GeminiFile → outcome unit
}.

Module Strings.

(** [s.startswith(prefix)] and [s.endswith(suffix)] *)
Definition startswith (s prefix : string) : bool :=
  bool_decide (list_ascii_of_string prefix `prefix_of` list_ascii_of_string s).
Definition endswith (s suffix : string) : bool :=
  bool_decide (list_ascii_of_string suffix `suffix_of` list_ascii_of_string s).

(** [str.lower] on one character: only the letters [A] to [Z] change.  (On
    the UTF-8 bytes of a name this agrees with Python on whether the result
    ends with [".pdf"].) *)
Definition lower_ascii (c : ascii) : ascii :=
  let n := nat_of_ascii c in
  if (65 <=? n)%nat && (n <=? 90)%nat then ascii_of_nat (n + 32) else c.

Fixpoint lower (s : string) : string :=
  match s with
  | EmptyString => EmptyString
  | String c s' => String (lower_ascii c) (lower s')
  end.

(** [posixpath.join(a, b)] *)
Definition path_join (a b : string) : string :=
  if startswith b "/" then b
  else if bool_decide (a = "") || endswith a "/" then a +:+ b
  else a +:+ "/" +:+ b.

End Strings.

Section Routes.
Context `{B : Backend} `{R : Runtime} `{L : Loader}.
Import Strings.
Local Open Scope route_scope.

(** What a route reads and writes: the files the routes write under
    [UPLOAD_DIR], by path, the dictionary of the [VectorDBService]
    singleton ([None] before it is constructed), and the store
    directories.  The index files that an ingestion under a stem [".."]
    writes into [UPLOAD_DIR] itself are kept with the store directories,
    under that stem. *)
Record World := {
  uploads : Files;
  instance : option (gmap string FAISS);
  store_dirs : gmap string StoreDir
}.

Definition with_uploads (f : Files → Files) (w : World) : World :=
  {| uploads := f (uploads w); instance := instance w; store_dirs := store_dirs w |}.

(** [str(e)] of what is in flight. *)
Definition str_raised (r : raised) : string :=
  match r with
  | Http e => str_http e
  | Other msg => msg
  end.

(** [file.filename.lower().endswith('.pdf')] *)
Definition is_pdf_name (filename : string) : bool :=
  endswith (lower filename) ".pdf".

(** Whether a directory is at a path, with the message of the exception
    that [os.remove] raises on it. *)
Definition directory_at (path : string) : option string :=
  match open_error path with
  | Some (IsADirectory msg) => Some msg
  | _ => None
  end.

(** The loop of [save_uploaded_file_streaming] (lines 40-48), on the open
    file: [file_size] is the running total; a chunk that takes it over
    [MAX_FILE_SIZE] removes the file and raises before being written. *)
Fixpoint write_chunks (stream : list read) (dest_path : string)
    (file_size : Z) (fs : Files) : outcome Z * Files :=
  match stream with
  | [] => (Done file_size, fs)
  | Data [] :: _ => (Done file_size, fs)
  | Data chunk :: rest =>
      let file_size := file_size + Z.of_nat (length chunk) in
      if MAX_FILE_SIZE <? file_size
      then (Raised (Http {|
              status_code := 400;
              detail := "파일 크기가 너무 큽니다. 최대 " +:+
                        pretty (MAX_FILE_SIZE `div` (1024 * 1024)) +:+
                        "MB까지 업로드 가능합니다." |}),
            delete dest_path fs)
      else write_chunks rest dest_path file_size
             (alter (λ content, (content ++ chunk)%list) dest_path fs)
  | ReadError msg :: _ => (Raised (Other msg), fs)
  end.

(** [save_uploaded_file_streaming] (lines 23-58): the file is opened for
    writing (created or truncated), the chunks are copied; an
    [HTTPException] is raised again as it is, any other exception (of
    [open] or of a read) removes the file if it exists and becomes a 500.
    When a directory is at the path, [os.remove] raises in the handler and
    that exception leaves the function. *)
Definition save_uploaded_file_streaming (stream : list read)
    (dest_path : string) (fs : Files) : outcome Z * Files :=
  match
    match open_error dest_path with
    | Some failure => (Raised (Other (failure_message failure)), fs)
    | None => write_chunks stream dest_path 0 (<[dest_path := []]> fs)
    end
  with
  | (Done file_size, fs') => (Done file_size, fs')
  | (Raised (Http e), fs') => (Raised (Http e), fs')
  | (Raised (Other msg), fs') =>
      match directory_at dest_path with
      | Some remove_msg => (Raised (Other remove_msg), fs')
      | None =>
          (Raised (Http {| status_code := 500;
                           detail := "파일 저장 중 오류 발생: " +:+ msg |}),
           delete dest_path fs')
      end
  end.

(** The same, as a step of a route. *)
Definition save_upload (stream : list read) (dest_path : string) : H World Z :=
  λ w, match save_uploaded_file_streaming stream dest_path (uploads w) with
       | (o, fs') => (o, with_uploads (λ _, fs') w)
       end.

(** [if os.path.exists(temp_file_path): os.remove(temp_file_path)]: a
    directory at the path exists and [os.remove] raises on it. *)
Definition remove_if_exists (path : string) : H World unit :=
  λ w, match directory_at path with
       | Some remove_msg => (Raised (Other remove_msg), w)
       | None => (Done tt, with_uploads (delete path) w)
       end.

(** [get_vector_db_service()], with [VectorDBService.__init__] (lines 30-61
    and 304-320 of the service): the singleton is constructed at the first
    call, with an empty dictionary, unless no API key is configured. *)
Definition get_vector_db_service : H World unit :=
  λ w, match instance w with
       | Some _ => (Done tt, w)
       | None =>
           match OPENAI_API_KEY with
           | None | Some "" =>
               (Raised (Other "OPENAI_API_KEY is required for embeddings"), w)
           | Some _ =>
               (Done tt, {| uploads := uploads w; instance := Some ∅;
                            store_dirs := store_dirs w |})
           end
       end.

(** A method of the singleton, run on its dictionary and the store
    directories; its exception is seen by the route through [str(e)]. *)
Definition call_service {A} (m : M State A) : H World A :=
  λ w, match instance w with
       | None => (Raised (Other "OPENAI_API_KEY is required for embeddings"), w)
       | Some cache =>
           match m {| vector_stores := cache; disk := store_dirs w |} with
           | (r, st') =>
               (match r with
                | Return a => Done a
                | Raise e => Raised (Other (str_exn e))
                end,
                {| uploads := uploads w; instance := Some (vector_stores st');
                   store_dirs := disk st' |})
           end
       end.

(** The metadata the upload route attaches (lines 110-113). *)
Definition upload_metadata (processed_file : GeminiFile) (filename : string)
    : gmap string value :=
  <["display_name" := VStr filename]>
    {["gemini_file_uri" := gemini_uri processed_file]}.

(** [vector_db_info]: the answer of [get_store_info], or the failure. *)
Inductive VectorDbInfo :=
  | Info (info : StoreInfo)
  | Failed (error : string).

(** The inner [try] of [upload_pdf_file] (lines 100-122): any exception
    becomes a failed [vector_db_info]. *)
Definition build_vector_db (processed_file : GeminiFile)
    (filename temp_file_path : string) : H World VectorDbInfo :=
  htry
    (get_vector_db_service ;;;
     full_text <- (λ w, (loader_extract_full_text (uploads w) processed_file
                           temp_file_path, w)) ;;
     _ <- call_service
            (create_vector_store_from_text full_text filename
               (Some (upload_metadata processed_file filename))) ;;
     vector_db_info <- call_service (get_store_info filename) ;;
     match vector_db_info with
     | Some info => hret (Info info)
     | None => hraise (Other "'NoneType' object has no attribute 'get'")
     end)
    (λ r, hret (Failed (str_raised r))).

Record UploadResponse := {
  upload_success : bool;
  upload_file_info : FileInfo;
  upload_vector_db_info : VectorDbInfo;
  upload_message : string
}.

(** The three loader calls every upload route starts with. *)
Definition process_upload (temp_file_path filename : string) : H World GeminiFile :=
  hlift get_pdf_loader ;;;
  uploaded_file <- (λ w, (loader_upload_pdf (uploads w) temp_file_path filename, w)) ;;
  hlift (loader_wait_for_file_processing uploaded_file).

Definition not_a_pdf : raised :=
  Http {| status_code := 400; detail := "PDF 파일만 업로드 가능합니다." |}.

(** [upload_pdf_file] (lines 61-139) *)
Definition upload_pdf_file (filename : string) (stream : list read)
    : H World UploadResponse :=
  if negb (is_pdf_name filename) then hraise not_a_pdf
  else
    let temp_file_path := path_join UPLOAD_DIR filename in
    htry
      (save_upload stream temp_file_path ;;;
       processed_file <- process_upload temp_file_path filename ;;
       file_info <- hlift (loader_get_file_info processed_file) ;;
       vector_db_info <- build_vector_db processed_file filename temp_file_path ;;
       hret {| upload_success := true;
               upload_file_info := file_info;
               upload_vector_db_info := vector_db_info;
               upload_message :=
                 "PDF 파일 업로드, 처리 및 FAISS 벡터 DB 생성 완료" |})
      (λ r,
         remove_if_exists temp_file_path ;;;
         hraise (Http {| status_code := 500;
                         detail := "파일 업로드 중 오류 발생: " +:+ str_raised r |})).

(** The handler of [upload_pdf_file] (lines 131-139), on its own. *)
Definition upload_failed (temp_file_path : string) (r : raised)
    : H World UploadResponse :=
  hbind (remove_if_exists temp_file_path)
    (λ _, hraise (Http {| status_code := 500;
                          detail := ("파일 업로드 중 오류 발생: " +:+
                                     str_raised r)%string |})).

(** The shape the four extraction routes share (lines 142-366): the upload
    is saved and processed, one loader call extracts, any exception becomes
    a 500 whose detail starts with [prefix], and the temporary file is
    removed in [finally], where [os.remove] may raise. *)
Definition extract_route {A C} (extract : Files → GeminiFile → string → outcome A)
    (respond : A → C) (prefix : string) (filename : string) (stream : list read)
    : H World C :=
  if negb (is_pdf_name filename) then hraise not_a_pdf
  else
    let temp_file_path := path_join UPLOAD_DIR filename in
    hfinally
      (htry
         (save_upload stream temp_file_path ;;;
          processed_file <- process_upload temp_file_path filename ;;
          extracted <- (λ w, (extract (uploads w) processed_file temp_file_path, w)) ;;
          hret (respond extracted))
         (λ r, hraise (Http {| status_code := 500;
                               detail := prefix +:+ str_raised r |})))
      (remove_if_exists temp_file_path).

Record TextResponse := {
  text_success : bool; extracted_text : string;
  text_file_name : string; text_length : nat
}.
Record PreviewResponse := {
  preview_success : bool; preview : Preview; preview_file_name : string
}.
Record StructuredResponse := {
  structured_success : bool; content : Structured; structured_file_name : string
}.
Record PagesResponse := {
  pages_success : bool; pages : list Page;
  pages_file_name : string; total_pages : nat
}.

(** [extract_text_from_pdf] (lines 142-198) *)
Definition extract_text_from_pdf (filename : string) (stream : list read)
    : H World TextResponse :=
  extract_route loader_extract_full_text
    (λ t, {| text_success := true; extracted_text := t;
             text_file_name := filename; text_length := str_len t |})
    "텍스트 추출 중 오류 발생: " filename stream.

(** [extract_preview_from_pdf] (lines 201-253) *)
Definition extract_preview_from_pdf (filename : string) (stream : list read)
    : H World PreviewResponse :=
  extract_route (λ _ processed_file _, loader_extract_text_preview processed_file)
    (λ p, {| preview_success := true; preview := p; preview_file_name := filename |})
    "미리보기 생성 중 오류 발생: " filename stream.

(** [extract_structured_content] (lines 256-309) *)
Definition extract_structured_content (filename : string) (stream : list read)
    : H World StructuredResponse :=
  extract_route
    (λ _ processed_file _, loader_extract_structured_content processed_file)
    (λ c, {| structured_success := true; content := c;
             structured_file_name := filename |})
    "구조화된 콘텐츠 추출 중 오류 발생: " filename stream.

(** [extract_text_by_pages] (lines 312-366) *)
Definition extract_text_by_pages (filename : string) (stream : list read)
    : H World PagesResponse :=
  extract_route (λ _ processed_file _, loader_extract_text_by_pages processed_file)
    (λ ps, {| pages_success := true; pages := ps;
              pages_file_name := filename; total_pages := length ps |})
    "페이지별 추출 중 오류 발생: " filename stream.

(** A route of this shape, for an accepted file name.  When a directory is
    at the path of the temporary file, the exception of [os.remove] leaves
    the route and nothing has changed.  Otherwise the temporary file is
    not there afterwards, whether the route returned or raised, no other
    file and nothing of the vector service has changed, and what the route
    raises is a 500. *)
Definition cleans_up {C} (route : string → list read → H World C) : Prop :=
  ∀ filename stream w,
    is_pdf_name filename = true →
    match directory_at (path_join UPLOAD_DIR filename) with
    | Some remove_msg =>
        route filename stream w = (Raised (Other remove_msg), w)
    | None =>
        uploads (route filename stream w).2 =
          delete (path_join UPLOAD_DIR filename) (uploads w) ∧
        instance (route filename stream w).2 = instance w ∧
        store_dirs (route filename stream w).2 = store_dirs w ∧
        ∀ r, (route filename stream w).1 = Raised r →
             ∃ e, r = Http e ∧ status_code e = 500%nat
    end.

Record DeleteResponse := {
  delete_success : bool;
  delete_message : string
}.

(** [except HTTPException: raise  except Exception as e: raise
    HTTPException(500, prefix + str(e))] *)
Definition reraise_or_500 {A} (prefix : string) (o : outcome A) : outcome A :=
  match o with
  | Done a => Done a
  | Raised (Http e) => Raised (Http e)
  | Raised (Other msg) =>
      Raised (Http {| status_code := 500; detail := prefix +:+ msg |})
  end.

(** [delete_single_file] (lines 395-437), on the loader's [uploaded_files]:
    the first file of that name is deleted; none is a 404. *)
Definition delete_single_file (uploaded_files : list GeminiFile)
    (file_name : string) : outcome DeleteResponse :=
  reraise_or_500 "파일 삭제 중 오류 발생: "
    match get_pdf_loader with
    | Raised r => Raised r
    | Done _ =>
        match List.find (λ file, bool_decide (gemini_name file = file_name))
                uploaded_files with
        | None =>
            Raised (Http {| status_code := 404;
                            detail := "파일을 찾을 수 없습니다: " +:+ file_name |})
        | Some file_to_delete =>
            match loader_delete_file file_to_delete with
            | Raised r => Raised r
            | Done _ =>
                Done {| delete_success := true;
                        delete_message := "파일이 삭제되었습니다: " +:+
                                          gemini_display_name file_to_delete |}
            end
        end
    end.

End Routes.

(** * The web search service ([services/search_service.py]) *)

Module SearchService.

(** The values of a response of the Tavily client, as parsed JSON: the keys
    of an object are strings; [float] is the type of Python's floats. *)
#[local] Unset Elimination Schemes.
Inductive pyval (float : Type) : Type :=
  | PNone
  | PBool (b : bool)
  | PInt (n : Z)
  | PFloat (x : float)
  | PStr (s : string)
  | PList (l : list (pyval float))
  | PDict (d : gmap string (pyval float)).
#[local] Set Elimination Schemes.
Arguments PNone {float}.
Arguments PBool {float} b.
Arguments PInt {float} n.
Arguments PFloat {float} x.
Arguments PStr {float} s.
Arguments PList {float} l.
Arguments PDict {float} d.

(** [tavily.TavilyClient] and what Python does with a value.  Each method
    of the service calls the client once, so the client's answer is given
    as a function of the keyword arguments; it may raise.  [repr] is
    [str()] of a value that is not a string, [format_2f_number] is
    [format(x, '.2f')] of a number, and the last four are the messages of
    the [AttributeError], [TypeError] and [ValueError] Python raises on a
    value of the wrong type. *)
Class Tavily := {
  float : Type;
  TAVILY_API_KEY : option string;
  client_search : gmap string (pyval float) → outcome (pyval float);
  float_is_zero : float → bool;
  repr : pyval float → string;
  format_2f_number : pyval float → string;
  no_attribute_get : pyval float → string;
  no_len : pyval float → string;
  not_iterable : pyval float → string;
  bad_format : pyval float → string
}.

#[global] Instance outcome_ret : MRet outcome := λ A a, Done a.
#[global] Instance outcome_bind : MBind outcome :=
  λ A C k o, match o with Done a => k a | Raised r => Raised r end.

(** [try: o  except Exception as e: h e] *)
Definition otry {A} (o : outcome A) (h : raised → outcome A) : outcome A :=
  match o with
  | Done a => Done a
  | Raised r => h r
  end.

Section Methods.
Context `{R : Runtime} `{T : Tavily}.

Local Abbreviation pyval := (pyval float).

(** [v.get(key, default)]: only a dict has the method. *)
Definition get (v : pyval) (key : string) (default : pyval) : outcome pyval :=
  match v with
  | PDict d => Done (from_option id default (d !! key))
  | _ => Raised (Other (no_attribute_get v))
  end.

(** [len(v)] *)
Definition len (v : pyval) : outcome nat :=
  match v with
  | PStr s => Done (String.length s)
  | PList l => Done (length l)
  | PDict d => Done (size d)
  | _ => Raised (Other (no_len v))
  end.

(** [bool(v)] *)
Definition truthy (v : pyval) : bool :=
  match v with
  | PNone => false
  | PBool b => b
  | PInt n => negb (n =? 0)
  | PFloat x => negb (float_is_zero x)
  | PStr s => negb (String.eqb s "")
  | PList l => negb (bool_decide (l = []))
  | PDict d => negb (bool_decide (d = ∅))
  end.

(** The elements [for result in v] goes through: the characters of a
    string, the elements of a list, the keys of a dict. *)
Definition iter (v : pyval) : outcome (list pyval) :=
  match v with
  | PStr s => Done ((λ c, PStr (String c "")) <$> list_ascii_of_string s)
  | PList l => Done l
  | PDict d => Done (PStr <$> (map_to_list d).*1)
  | _ => Raised (Other (not_iterable v))
  end.

(** [f"{v}"] *)
Definition format_plain (v : pyval) : string :=
  match v with
  | PStr s => s
  | _ => repr v
  end.

(** Whether [float(n)] overflows.  The largest float is [2^1024 - 2^971]
    and an integer is rounded to the nearest float (to the even one on a
    tie), so the integers of magnitude [2^1024 - 2^970] or more have none. *)
Definition too_large_for_float (n : Z) : bool :=
  2 ^ 1024 - 2 ^ 970 <=? Z.abs n.

(** [f"{v:.2f}"]: defined on numbers only; an integer is converted to a
    float first, which raises [OverflowError] when it is too large. *)
Definition format_2f (v : pyval) : outcome string :=
  match v with
  | PInt n =>
      if too_large_for_float n
      then Raised (Other "int too large to convert to float")
      else Done (format_2f_number v)
  | PBool _ | PFloat _ => Done (format_2f_number v)
  | _ => Raised (Other (bad_format v))
  end.

(** [SearchService.__init__] (lines 23-38): the key the client is built
    with. *)
Definition init (api_key : option string) : outcome string :=
  match api_key with
  | Some (String _ _ as key) => Done key
  | _ =>
      match TAVILY_API_KEY with
      | Some (String _ _ as key) => Done key
      | _ =>
          Raised (Http {| status_code := 503;
                          detail := "Tavily API key is not configured. Please set TAVILY_API_KEY in .env file" |})
      end
  end.

(** [get_search_service] (lines 198-210), on [_search_service_instance]:
    the instance is kept once its construction has returned. *)
Definition get_search_service : H (option string) string :=
  λ _search_service_instance,
    match _search_service_instance with
    | Some service => (Done service, _search_service_instance)
    | None =>
        match init None with
        | Done service => (Done service, Some service)
        | Raised r => (Raised r, None)
        end
    end.

Definition domains (l : list string) : pyval := PList (PStr <$> l).

(** [search_params] (lines 66-76): a list of domains is passed on when it
    is not empty. *)
Definition search_params (query : string) (max_results : Z) (search_depth : string)
    (include_domains exclude_domains : option (list string))
    : gmap string pyval :=
  let search_params : gmap string pyval :=
    <["search_depth" := PStr search_depth]>
      (<["max_results" := PInt max_results]> {["query" := PStr query]}) in
  let search_params :=
    match include_domains with
    | Some (_ :: _ as l) => <["include_domains" := domains l]> search_params
    | _ => search_params
    end in
  match exclude_domains with
  | Some (_ :: _ as l) => <["exclude_domains" := domains l]> search_params
  | _ => search_params
  end.

(** [SearchService.search] (lines 40-91) *)
Definition search (query : string) (max_results : Z) (search_depth : string)
    (include_domains exclude_domains : option (list string)) : outcome pyval :=
  otry
    (response ← client_search
       (search_params query max_results search_depth include_domains
          exclude_domains);
     results ← get response "results" (PList []);
     results_count ← len results;
     mret response)
    (λ e, Raised (Http {| status_code := 500;
                          detail := "Failed to perform web search: " +:+
                                    str_raised e |})).

Definition no_results : string := "검색 결과가 없습니다.".
Definition header (query : string) : string :=
  "**웹 검색 결과: '" +:+ query +:+ "'**" +:+ newline +:+ newline.
Definition format_failed : string := "검색 중 오류가 발생했습니다: ".

(** The body of the loop of [search_and_format] (lines 127-135) *)
Definition format_result (idx : nat) (result : pyval) (formatted_text : string)
    : outcome string :=
  title ← get result "title" (PStr "제목 없음");
  url ← get result "url" (PStr "");
  content ← get result "content" (PStr "");
  score ← get result "score" (PInt 0);
  let formatted_text :=
    formatted_text +:+ "**[" +:+ pretty idx +:+ "] " +:+ format_plain title +:+
    "**" +:+ newline in
  let formatted_text :=
    formatted_text +:+ "출처: " +:+ format_plain url +:+ newline in
  score_text ← format_2f score;
  let formatted_text :=
    formatted_text +:+ "관련도: " +:+ score_text +:+ newline in
  mret (formatted_text +:+ format_plain content +:+ newline +:+ newline).

(** [for idx, result in enumerate(results, idx)] *)
Fixpoint format_results (idx : nat) (results : list pyval) (formatted_text : string)
    : outcome string :=
  match results with
  | [] => Done formatted_text
  | result :: results =>
      formatted_text ← format_result idx result formatted_text;
      format_results (S idx) results formatted_text
  end.

(** [SearchService.search_and_format] (lines 93-141) *)
Definition search_and_format (query : string) (max_results : Z)
    (search_depth : string) : outcome string :=
  otry
    (response ← search query max_results search_depth None None;
     results ← get response "results" (PList []);
     if negb (truthy results) then mret no_results
     else
       items ← iter results;
       format_results 1 items (header query))
    (λ e, Done (format_failed +:+ str_raised e)).

Record Source := {
  source_title : pyval;
  source_url : pyval;
  source_score : pyval
}.

Record Answer := {
  answer : pyval;
  sources : list Source;
  total_results : nat
}.

(** The loop of [get_answer_with_sources] (lines 172-178) *)
Fixpoint collect_sources (results : list pyval) (sources : list Source)
    : outcome (list Source) :=
  match results with
  | [] => Done sources
  | result :: results =>
      title ← get result "title" (PStr "");
      url ← get result "url" (PStr "");
      score ← get result "score" (PInt 0);
      collect_sources results
        (sources ++ [ {| source_title := title; source_url := url;
                         source_score := score |} ])%list
  end.

(** The keyword arguments of the call in [get_answer_with_sources]. *)
Definition answer_params (query : string) (max_results : Z) : gmap string pyval :=
  <["include_answer" := PBool true]>
    (<["search_depth" := PStr "advanced"]>
       (<["max_results" := PInt max_results]> {["query" := PStr query]})).

(** [SearchService.get_answer_with_sources] (lines 143-191) *)
Definition get_answer_with_sources (query : string) (max_results : Z)
    : outcome Answer :=
  otry
    (response ← client_search (answer_params query max_results);
     answer ← get response "answer" (PStr "");
     results ← get response "results" (PList []);
     items ← iter results;
     sources ← collect_sources items [];
     total_results ← len results;
     mret {| answer := answer; sources := sources;
             total_results := total_results |})
    (λ e, Raised (Http {| status_code := 500;
                          detail := "Failed to get answer with sources: " +:+
                                    str_raised e |})).

(** The values [len] is defined on. *)
Definition sized (v : pyval) : bool :=
  match v with
  | PStr _ | PList _ | PDict _ => true
  | _ => false
  end.

(** The results [search_and_format] can format: a dict whose score, when
    it has one, is a number that has a float. *)
Definition number (v : pyval) : bool :=
  match v with
  | PInt n => negb (too_large_for_float n)
  | PBool _ | PFloat _ => true
  | _ => false
  end.
Definition well_formed (result : pyval) : bool :=
  match result with
  | PDict d => number (from_option id (PInt 0) (d !! "score"))
  | _ => false
  end.

End Methods.

End SearchService.

(** ** An instance of the runtime and of the loader *)

Module RouteFixture.
Import Fixture.

(** The path of the store directory of a document [a.pdf.pdf], which a
    file name [vector_stores/a.pdf] makes the path of an upload, and the
    message of the exceptions raised on it. *)
Definition store_directory_path : string := "uploads/vector_stores/a.pdf".
Definition is_a_directory : string :=
  "[Errno 21] Is a directory: 'uploads/vector_stores/a.pdf'".

(** A limit of eight bytes, a configured key, an [open] that fails on that
    directory only; [str(e)] of an [HTTPException] is its status and its
    detail. *)
#[global] Instance runtime : Runtime := {|
  MAX_FILE_SIZE := 8;
  OPENAI_API_KEY := Some "sk-test";
  open_error := λ path,
    if String.eqb path store_directory_path
    then Some (IsADirectory is_a_directory) else None;
  str_exn := λ e,
    match e with
    | InvalidInput => "InvalidInput"
    | EmbeddingFailure => "EmbeddingFailure"
    | DimensionMismatch => "DimensionMismatch"
    | NotFound => "NotFound"
    | LoadFailure => "LoadFailure"
    | PersistenceFailure => "PersistenceFailure"
    | OSError => "OSError"
    | IndexError => "list index out of range"
    end;
  str_http := λ e, pretty (status_code e) +:+ ": " +:+ detail e;
  str_len := String.length
|}.

(** The same without a key. *)
Definition runtime_without_key : Runtime := {|
  MAX_FILE_SIZE := 8;
  OPENAI_API_KEY := None;
  open_error := λ _, None;
  str_exn := str_exn;
  str_http := str_http;
  str_len := String.length
|}.

Record gemini_file := {
  gname : string;
  gdisplay : string
}.

(** A loader that accepts a file that is there and extracts [fox] from it. *)
#[global] Instance loader : Loader := {|
  GeminiFile := gemini_file;
  FileInfo := string;
  Preview := string;
  Structured := string;
  Page := string;
  gemini_name := gname;
  gemini_display_name := gdisplay;
  gemini_uri := λ f, VStr ("https://files/" +:+ gdisplay f);
  get_pdf_loader := Done tt;
  loader_upload_pdf := λ fs path display_name,
    match fs !! path with
    | Some _ => Done {| gname := "files/" +:+ display_name; gdisplay := display_name |}
    | None => Raised (Other "no such file")
    end;
  loader_wait_for_file_processing := Done;
  loader_get_file_info := λ f, Done (gname f);
  loader_extract_full_text := λ _ _ _, Done fox;
  loader_extract_text_preview := λ _, Done "preview";
  loader_extract_structured_content := λ _, Done "structured";
  loader_extract_text_by_pages := λ _, Done ["page"];
  loader_delete_file := λ _, Done tt
|}.

(** Five bytes in two chunks, and nine bytes in three. *)
Definition small_upload : list (list Byte.byte) :=
  [[Byte.x25; Byte.x50; Byte.x44]; [Byte.x46; Byte.x2d]].
Definition large_upload : list (list Byte.byte) :=
  [[Byte.x25; Byte.x50; Byte.x44]; [Byte.x46; Byte.x2d; Byte.x31];
   [Byte.x2e; Byte.x34; Byte.x0a]].

(** Nothing uploaded, no vector service yet. *)
Definition fresh : World :=
  {| uploads := ∅; instance := None; store_dirs := ∅ |}.

(** The store an ingestion of [fox] builds under the name [report.PDF]. *)
Definition upper_store : store :=
  {| index := {| VectorIndex.dim := dimension;
                 VectorIndex.vectors := [embed fox] |};
     docs := make_documents [fox] "report.PDF" None |}.

(** The file the loader returns for [report.pdf]. *)
Definition report_file : @GeminiFile loader :=
  {| gname := "files/report.pdf"; gdisplay := "report.pdf" |}.

(** The store the upload route builds for [report.pdf], and what it leaves
    from [fresh]. *)
Definition uploaded_store : store :=
  {| index := {| VectorIndex.dim := dimension;
                 VectorIndex.vectors := [embed fox] |};
     docs := make_documents [fox] "report.pdf"
               (Some (upload_metadata report_file "report.pdf")) |}.

Definition after_upload : World :=
  {| uploads := ∅;
     instance := Some {["report.pdf" := uploaded_store]};
     store_dirs :=
       {["report" := {| files := save_local uploaded_store; writable := true |}]} |}.

(** Two uploaded files of the same name, after another one. *)
Definition three_files : list (@GeminiFile loader) :=
  [ {| gname := "files/a"; gdisplay := "a.pdf" |};
    {| gname := "files/b"; gdisplay := "first b.pdf" |};
    {| gname := "files/b"; gdisplay := "second b.pdf" |} ].

End RouteFixture.

(** ** An instance of the client *)

Module WebFixture.
Import SearchService.

(** One result with a score, and one whose score is a word. *)
Definition scored : pyval Z :=
  PDict (<["score" := PFloat 97]>
           (<["content" := PStr "A proof assistant."]>
              (<["url" := PStr "https://rocq-prover.org"]>
                 {["title" := PStr "Rocq"]}))).
Definition unscored : pyval Z :=
  PDict (<["score" := PStr "high"]> {["title" := PStr "Notes"]}).

(** One whose score is an integer beyond the floats. *)
Definition oversized : pyval Z :=
  PDict (<["score" := PInt (10 ^ 400)]> {["title" := PStr "Googol"]}).

(** A client that is offline for one query, answers two others with a
    malformed result, and the others with one result; a float is given in
    hundredths. *)
#[global] Instance tavily : Tavily := {|
  float := Z;
  TAVILY_API_KEY := Some "tvly-test";
  client_search := λ kwargs,
    match kwargs !! "query" with
    | Some (PStr "offline") => Raised (Other "connection refused")
    | Some (PStr "mixed") =>
        Done (PDict {["results" := PList [scored; unscored]]})
    | Some (PStr "huge") =>
        Done (PDict {["results" := PList [scored; oversized]]})
    | Some (PStr "nothing") =>
        Done (PDict {["results" := PList []]})
    | _ =>
        Done (PDict (<["answer" := PStr "A proof assistant."]>
                       {["results" := PList [scored]]}))
    end;
  float_is_zero := λ x, x =? 0;
  repr := λ v,
    match v with
    | PNone => "None"
    | PBool true => "True"
    | PBool false => "False"
    | PInt n => pretty n
    | PFloat x => pretty (x `div` 100) +:+ "." +:+ pretty (x `mod` 100)
    | PStr s => s
    | PList _ => "[...]"
    | PDict _ => "{...}"
    end;
  format_2f_number := λ v,
    match v with
    | PInt n => pretty n +:+ ".00"
    | PFloat x =>
        pretty (x `div` 100) +:+ "." +:+ pretty ((x `mod` 100) `div` 10) +:+
        pretty (x `mod` 10)
    | PBool true => "1.00"
    | _ => "0.00"
    end;
  no_attribute_get := λ _, "object has no attribute 'get'";
  no_len := λ _, "object has no len()";
  not_iterable := λ _, "object is not iterable";
  bad_format := λ _, "Unknown format code 'f'"
|}.

End WebFixture.

(** * Properties *)

(** ** The methods, run *)

Section ServiceFacts.
Context `{B : Backend}.

Ltac run :=
  unfold bind, ret, raise, lift, get, put, try_except; simpl.

(** A store found in the dictionary is returned as it is. *)
Lemma load_vector_store_cached (st : State) (file_name : string) (vs : FAISS) :
  vector_stores st !! file_name = Some vs →
  load_vector_store file_name st = (Return (Some vs), st).
Proof.
  intros Hc. unfold load_vector_store. run. by rewrite Hc.
Qed.

(** No dictionary entry and no directory: [None], nothing touched. *)
Lemma load_vector_store_absent (st : State) (file_name : string) :
  vector_stores st !! file_name = None →
  disk st !! Pathlib.stem file_name = None →
  load_vector_store file_name st = (Return None, st).
Proof.
  intros Hc Hd. unfold load_vector_store, path_exists. run.
  rewrite Hc. rewrite bool_decide_eq_false_2; [done|].
  rewrite Hd. by intros [? ?].
Qed.

(** No dictionary entry and a directory whose files do not load: the
    exception is swallowed, the answer is [None] again. *)
Lemma load_vector_store_unreadable (st : State) (file_name : string)
    (d : StoreDir) (e : exn) :
  vector_stores st !! file_name = None →
  disk st !! Pathlib.stem file_name = Some d →
  load_local (files d) = Raise e →
  load_vector_store file_name st = (Return None, st).
Proof.
  intros Hc Hd Hl. unfold load_vector_store, path_exists, fs_load_local. run.
  rewrite Hc. rewrite bool_decide_eq_true_2 by (rewrite Hd; eauto). simpl.
  rewrite Hd. run. by rewrite Hl.
Qed.

(** No dictionary entry and a directory that loads: the store is returned and
    enters the dictionary under the file name. *)
Lemma load_vector_store_from_disk (st : State) (file_name : string)
    (d : StoreDir) (vs : FAISS) :
  vector_stores st !! file_name = None →
  disk st !! Pathlib.stem file_name = Some d →
  load_local (files d) = Return vs →
  load_vector_store file_name st =
    (Return (Some vs),
     {| vector_stores := <[file_name := vs]> (vector_stores st); disk := disk st |}).
Proof.
  intros Hc Hd Hl.
  unfold load_vector_store, path_exists, fs_load_local, cache_store. run.
  rewrite Hc. rewrite bool_decide_eq_true_2 by (rewrite Hd; eauto). simpl.
  rewrite Hd. run. by rewrite Hl.
Qed.

(** X1: [load_vector_store] always returns, whatever the dictionary and the
    disk hold: an exception of [FAISS.load_local] is caught. *)
Theorem load_vector_store_total (st : State) (file_name : string) :
  ∃ o st', load_vector_store file_name st = (Return o, st').
Proof.
  destruct (vector_stores st !! file_name) as [vs|] eqn:Hc.
  { eauto using load_vector_store_cached. }
  destruct (disk st !! Pathlib.stem file_name) as [d|] eqn:Hd.
  - destruct (load_local (files d)) as [vs|e] eqn:Hl.
    + eauto using load_vector_store_from_disk.
    + eauto using load_vector_store_unreadable.
  - eauto using load_vector_store_absent.
Qed.

(** What a successful ingestion did: the splitter and the store builder
    returned, and the store is in the dictionary and on disk. *)
Lemma create_vector_store_from_text_returns (st st1 : State)
    (text file_name : string) (md : option (gmap string value)) (vs : FAISS) :
  create_vector_store_from_text text file_name md st = (Return vs, st1) →
  ∃ chunks,
    split_text chunk_size chunk_overlap separators text = Return chunks ∧
    from_documents (make_documents chunks file_name md) = Return vs ∧
    st1 = ingested st file_name vs.
Proof.
  unfold create_vector_store_from_text, save_vector_store, fs_save_local,
    cache_store. run.
  destruct (split_text _ _ _ _) as [chunks|e] eqn:Hs; [|done].
  destruct (from_documents _) as [vs'|e] eqn:Hf; [|done]. simpl.
  destruct (disk st !! Pathlib.stem file_name) as [d|] eqn:Hd.
  - destruct (writable d); simpl; [|done].
    intros H. inversion H; subst. by exists chunks.
  - intros H. inversion H; subst. by exists chunks.
Qed.

(** An ingestion succeeds when the splitter and the store builder return and
    the operating system does not protect the directory. *)
Lemma create_vector_store_from_text_succeeds (st : State)
    (text file_name : string) (md : option (gmap string value))
    (chunks : list string) (vs : FAISS) :
  split_text chunk_size chunk_overlap separators text = Return chunks →
  from_documents (make_documents chunks file_name md) = Return vs →
  (∀ d, disk st !! Pathlib.stem file_name = Some d → writable d = true) →
  create_vector_store_from_text text file_name md st =
    (Return vs, ingested st file_name vs).
Proof.
  intros Hs Hf Hw.
  unfold create_vector_store_from_text, save_vector_store, fs_save_local,
    cache_store. run.
  rewrite Hs, Hf. simpl.
  destruct (disk st !! Pathlib.stem file_name) as [d|] eqn:Hd; [|done].
  by rewrite (Hw d eq_refl).
Qed.

(** [delete_vector_store], case by case. *)
Lemma delete_vector_store_absent (st : State) (file_name : string) :
  disk st !! Pathlib.stem file_name = None →
  delete_vector_store file_name st =
    (Return false,
     {| vector_stores := delete file_name (vector_stores st); disk := disk st |}).
Proof.
  intros Hd. unfold delete_vector_store, cache_evict, path_exists, rmtree. run.
  rewrite bool_decide_eq_false_2; [done|]. rewrite Hd. by intros [? ?].
Qed.

Lemma delete_vector_store_protected (st : State) (file_name : string)
    (d : StoreDir) :
  disk st !! Pathlib.stem file_name = Some d →
  writable d = false →
  delete_vector_store file_name st =
    (Return false,
     {| vector_stores := delete file_name (vector_stores st); disk := disk st |}).
Proof.
  intros Hd Hw. unfold delete_vector_store, cache_evict, path_exists, rmtree. run.
  rewrite bool_decide_eq_true_2 by (rewrite Hd; eauto). simpl.
  by rewrite Hd, Hw.
Qed.

Lemma delete_vector_store_removes (st : State) (file_name : string)
    (d : StoreDir) :
  disk st !! Pathlib.stem file_name = Some d →
  writable d = true →
  delete_vector_store file_name st =
    (Return true,
     {| vector_stores := delete file_name (vector_stores st);
        disk := delete (Pathlib.stem file_name) (disk st) |}).
Proof.
  intros Hd Hw. unfold delete_vector_store, cache_evict, path_exists, rmtree. run.
  rewrite bool_decide_eq_true_2 by (rewrite Hd; eauto). simpl.
  by rewrite Hd, Hw.
Qed.

(** [search] on a store that [load_vector_store] did not obtain. *)
Lemma search_no_store (st st' : State) (query file_name : string) (top_k : Z) :
  load_vector_store file_name st = (Return None, st') →
  search query file_name top_k st = (Return [], st').
Proof. intros Hl. unfold search. run. by rewrite Hl. Qed.

(** [search] on a store in the dictionary. *)
Lemma search_cached (st : State) (query file_name : string) (top_k : Z)
    (vs : FAISS) :
  vector_stores st !! file_name = Some vs →
  search query file_name top_k st =
    (match similarity_search_with_score vs query top_k with
     | Return results =>
         Return (map (λ r : Document * Score,
                        {| text := page_content r.1;
                           result_metadata := metadata r.1;
                           score := r.2 |}) results)
     | Raise e => Raise e
     end, st).
Proof.
  intros Hc. unfold search. run.
  rewrite (load_vector_store_cached _ _ _ Hc).
  by destruct (similarity_search_with_score vs query top_k).
Qed.

(** ** The claims about the service *)

(** [doc_metadata] with caller metadata that leaves ["chunk_index"] alone. *)
Lemma doc_metadata_chunk_index (file_name : string) (total idx : nat)
    (md : option (gmap string value)) :
  (∀ m, md = Some m → m !! "chunk_index" = None) →
  doc_metadata file_name total idx md !! "chunk_index" =
    Some (VInt (Z.of_nat idx)).
Proof.
  intros Hmd. unfold doc_metadata.
  destruct md as [m|]; [|by simplify_map_eq].
  case_decide; [by simplify_map_eq|].
  rewrite lookup_union_r by eauto. by simplify_map_eq.
Qed.

Lemma make_documents_length (chunks : list string) (file_name : string)
    (md : option (gmap string value)) :
  length (make_documents chunks file_name md) = length chunks.
Proof. unfold make_documents. by rewrite length_imap. Qed.

Lemma make_documents_lookup (chunks : list string) (file_name : string)
    (md : option (gmap string value)) (i : nat) :
  make_documents chunks file_name md !! i =
    (λ chunk, {| page_content := chunk;
                 metadata := doc_metadata file_name (length chunks) i md |})
      <$> chunks !! i.
Proof. unfold make_documents. by rewrite list_lookup_imap. Qed.

(** C1, amended: when the store of [file_name] cannot be obtained (it is not
    in the dictionary, and its directory is missing or fails to load),
    [search] returns the empty list, raises nothing and changes nothing. *)
Theorem search_unavailable_store_is_empty (st : State)
    (query file_name : string) (top_k : Z) :
  unavailable st file_name →
  search query file_name top_k st = (Return [], st).
Proof.
  intros [Hc [Hd | (d & e & Hd & Hl)]]; apply search_no_store.
  - by apply load_vector_store_absent.
  - by eapply load_vector_store_unreadable.
Qed.

(** C2, amended: a directory whose files fail to load gets the same answer
    from [load_vector_store] as a missing directory: [None], with the
    dictionary and the disk left as they were. *)
Theorem load_corrupted_same_as_absent (st_corrupted st_absent : State)
    (file_name : string) :
  corrupted st_corrupted file_name →
  absent st_absent file_name →
  load_vector_store file_name st_corrupted = (Return None, st_corrupted) ∧
  load_vector_store file_name st_absent = (Return None, st_absent).
Proof.
  intros (Hc & d & e & Hd & Hl) [Hc' Hd']. split.
  - by eapply load_vector_store_unreadable.
  - by apply load_vector_store_absent.
Qed.

(** C3: a store that an ingestion built and saved is loaded back, after the
    dictionary was emptied, as the same store (same documents, same metadata),
    and every query gets the answer the built store gave; this uses that
    [load_local] reads back what [save_local] wrote for that store. *)
Theorem build_then_load_round_trip (st st1 : State) (text file_name : string)
    (md : option (gmap string value)) (vs : FAISS) :
  load_local (save_local vs) = Return vs →
  create_vector_store_from_text text file_name md st = (Return vs, st1) →
  load_vector_store file_name (clear_cache st1) =
    (Return (Some vs),
     {| vector_stores := {[file_name := vs]}; disk := disk st1 |}) ∧
  ∀ query top_k,
    (search query file_name top_k (clear_cache st1)).1 =
    (search query file_name top_k st1).1.
Proof.
  intros Hrt Hcreate.
  destruct (create_vector_store_from_text_returns _ _ _ _ _ _ Hcreate)
    as (chunks & _ & _ & ->).
  assert (Hload : load_vector_store file_name (clear_cache (ingested st file_name vs)) =
    (Return (Some vs),
     {| vector_stores := {[file_name := vs]};
        disk := disk (ingested st file_name vs) |})).
  { rewrite <- insert_empty.
    apply (load_vector_store_from_disk (clear_cache (ingested st file_name vs))
             file_name {| files := save_local vs; writable := true |} vs).
    - done.
    - simpl. by rewrite lookup_insert_eq.
    - done. }
  split; [done|]. intros query top_k.
  rewrite (search_cached (ingested st file_name vs) query file_name top_k vs)
    by (simpl; by rewrite lookup_insert_eq).
  unfold search, bind. rewrite Hload. unfold lift, ret. simpl.
  by destruct (similarity_search_with_score vs query top_k).
Qed.

(** C4, amended: a text that the splitter cuts into no chunk (the empty
    text) reaches the store builder as an empty list of documents, with no
    guard in between.  When the builder raises on it, the ingestion raises
    the same exception and leaves the dictionary and the disk as they were;
    when the builder returns a store, that store is put in the dictionary
    and saved (the directory being writable), [get_store_info] reports its
    size and [search] hands it every query. *)
Theorem ingest_text_without_chunks (st : State) (text file_name : string)
    (md : option (gmap string value)) :
  split_text chunk_size chunk_overlap separators text = Return [] →
  make_documents [] file_name md = [] ∧
  (∀ e, from_documents [] = Raise e →
     create_vector_store_from_text text file_name md st = (Raise e, st)) ∧
  (∀ vs, from_documents [] = Return vs →
     (∀ d, disk st !! Pathlib.stem file_name = Some d → writable d = true) →
     create_vector_store_from_text text file_name md st =
       (Return vs, ingested st file_name vs) ∧
     get_store_info file_name (ingested st file_name vs) =
       (Return (Some {| info_file_name := file_name;
                        total_chunks := index_ntotal vs;
                        embedding_dimension := index_d vs |}),
        ingested st file_name vs) ∧
     ∀ query top_k,
       search query file_name top_k (ingested st file_name vs) =
         (result_map (map (λ r : Document * Score,
                             {| text := page_content r.1;
                                result_metadata := metadata r.1;
                                score := r.2 |}))
            (similarity_search_with_score vs query top_k),
          ingested st file_name vs)).
Proof.
  intros Hsplit. split_and!.
  - done.
  - intros e Hbuild. unfold create_vector_store_from_text. run.
    rewrite Hsplit. simpl.
    change (make_documents [] file_name md) with (@nil Document).
    by rewrite Hbuild.
  - intros vs Hbuild Hw.
    assert (Hc : vector_stores (ingested st file_name vs) !! file_name = Some vs)
      by (simpl; by rewrite lookup_insert_eq).
    split_and!.
    + by apply (create_vector_store_from_text_succeeds st text file_name md []).
    + unfold get_store_info, bind, ret.
      by rewrite (load_vector_store_cached _ _ _ Hc).
    + intros query top_k.
      rewrite (search_cached _ query file_name top_k vs Hc).
      by destruct (similarity_search_with_score vs query top_k).
Qed.

(** C6, amended: the directory of a store is named by the stem of the file
    name (its last component without the last suffix; no character is
    removed), and the dictionary is keyed by the file name as given.  Two
    ingestions whose names share a stem leave one directory, holding the
    second store; in the dictionary the second replaces the first when the
    two names are equal, and the two stand side by side when they differ. *)
Theorem ingest_twice_same_stem (st st1 st2 : State)
    (text1 file_name1 text2 file_name2 : string)
    (md1 md2 : option (gmap string value)) (v1 v2 : FAISS) :
  Pathlib.stem file_name1 = Pathlib.stem file_name2 →
  create_vector_store_from_text text1 file_name1 md1 st = (Return v1, st1) →
  create_vector_store_from_text text2 file_name2 md2 st1 = (Return v2, st2) →
  disk st2 = <[Pathlib.stem file_name2 :=
                 {| files := save_local v2; writable := true |}]> (disk st) ∧
  (file_name1 = file_name2 →
     vector_stores st2 = <[file_name2 := v2]> (vector_stores st)) ∧
  (file_name1 ≠ file_name2 →
     vector_stores st2 !! file_name1 = Some v1 ∧
     vector_stores st2 !! file_name2 = Some v2).
Proof.
  intros Hstem H1 H2.
  destruct (create_vector_store_from_text_returns _ _ _ _ _ _ H1)
    as (? & _ & _ & ->).
  destruct (create_vector_store_from_text_returns _ _ _ _ _ _ H2)
    as (? & _ & _ & ->).
  simpl. split_and!.
  - rewrite Hstem. apply insert_insert_eq.
  - intros ->. apply insert_insert_eq.
  - intros Hne. by simplify_map_eq.
Qed.

(** C7: after [delete_vector_store] returned true for a file name,
    [load_vector_store] for that name finds nothing, and a second
    [delete_vector_store] returns false and changes nothing. *)
Theorem delete_then_load_then_delete (st st1 : State) (file_name : string) :
  delete_vector_store file_name st = (Return true, st1) →
  load_vector_store file_name st1 = (Return None, st1) ∧
  delete_vector_store file_name st1 = (Return false, st1).
Proof.
  intros Hdel.
  assert (st1 = {| vector_stores := delete file_name (vector_stores st);
                   disk := delete (Pathlib.stem file_name) (disk st) |}) as ->.
  { destruct (disk st !! Pathlib.stem file_name) as [d|] eqn:Hd.
    - destruct (writable d) eqn:Hw.
      + rewrite (delete_vector_store_removes _ _ _ Hd Hw) in Hdel. congruence.
      + rewrite (delete_vector_store_protected _ _ _ Hd Hw) in Hdel. congruence.
    - rewrite (delete_vector_store_absent _ _ Hd) in Hdel. congruence. }
  split.
  - apply load_vector_store_absent; simpl; apply lookup_delete_eq.
  - rewrite delete_vector_store_absent by (simpl; apply lookup_delete_eq).
    simpl. by rewrite delete_delete_eq.
Qed.

(** C9, amended: when the caller's metadata does not define the key
    ["chunk_index"], the store that an ingestion returns, puts in the
    dictionary and saves is the one the store builder made of the documents
    of the loop: one per chunk, in order, the [i]-th holding the [i]-th
    chunk with ordinal [i] (so the ordinals start at 0 and increase by
    one); and, the store builder indexing one vector per document, the
    index of that store holds as many vectors as there are chunks, which is
    what [get_store_info] reports. *)
Theorem chunk_ordinals_and_index_size (st st1 : State)
    (text file_name : string) (md : option (gmap string value))
    (chunks : list string) (vs : FAISS) :
  (∀ documents s, from_documents documents = Return s →
     index_ntotal s = length documents) →
  (∀ m, md = Some m → m !! "chunk_index" = None) →
  split_text chunk_size chunk_overlap separators text = Return chunks →
  create_vector_store_from_text text file_name md st = (Return vs, st1) →
  from_documents (make_documents chunks file_name md) = Return vs ∧
  st1 = ingested st file_name vs ∧
  length (make_documents chunks file_name md) = length chunks ∧
  (∀ (i : nat) chunk, chunks !! i = Some chunk →
     ∃ doc, make_documents chunks file_name md !! i = Some doc ∧
            page_content doc = chunk ∧
            metadata doc !! "chunk_index" = Some (VInt (Z.of_nat i))) ∧
  index_ntotal vs = length chunks ∧
  get_store_info file_name st1 =
    (Return (Some {| info_file_name := file_name;
                     total_chunks := length chunks;
                     embedding_dimension := index_d vs |}), st1).
Proof.
  intros Hbuild Hmd Hsplit Hcreate.
  destruct (create_vector_store_from_text_returns _ _ _ _ _ _ Hcreate)
    as (chunks' & Hsplit' & Hfrom & ->).
  assert (chunks' = chunks) as -> by congruence.
  assert (Hn : index_ntotal vs = length chunks).
  { rewrite (Hbuild _ _ Hfrom). apply make_documents_length. }
  split_and!.
  - done.
  - done.
  - apply make_documents_length.
  - intros i chunk Hi. eexists. rewrite make_documents_lookup, Hi. simpl.
    split_and!; [done..|]. by apply doc_metadata_chunk_index.
  - done.
  - unfold get_store_info, bind, ret.
    rewrite (load_vector_store_cached (ingested st file_name vs) file_name vs)
      by (simpl; by rewrite lookup_insert_eq).
    simpl. by rewrite Hn.
Qed.


(** X2: when the directory cannot be written, the ingestion raises after the
    store was put in the dictionary: the dictionary holds the new store, the
    disk is as before. *)
Theorem failed_save_keeps_dictionary_entry (st : State)
    (text file_name : string) (md : option (gmap string value))
    (chunks : list string) (vs : FAISS) (d : StoreDir) :
  split_text chunk_size chunk_overlap separators text = Return chunks →
  from_documents (make_documents chunks file_name md) = Return vs →
  disk st !! Pathlib.stem file_name = Some d →
  writable d = false →
  create_vector_store_from_text text file_name md st =
    (Raise OSError,
     {| vector_stores := <[file_name := vs]> (vector_stores st);
        disk := disk st |}).
Proof.
  intros Hs Hf Hd Hw.
  unfold create_vector_store_from_text, save_vector_store, fs_save_local,
    cache_store. run.
  by rewrite Hs, Hf; simpl; rewrite Hd, Hw.
Qed.

(** X3: on a store in the dictionary, [search] hands [query] and [top_k] to
    the store unchanged and answers what the store answers, in the same
    order: the text, the metadata and the score of each hit; an exception of
    the store is raised to the caller. *)
Theorem search_passes_through (st : State) (query file_name : string)
    (top_k : Z) (vs : FAISS) :
  vector_stores st !! file_name = Some vs →
  (∀ e, similarity_search_with_score vs query top_k = Raise e →
     search query file_name top_k st = (Raise e, st)) ∧
  (∀ results, similarity_search_with_score vs query top_k = Return results →
     ∃ out, search query file_name top_k st = (Return out, st) ∧
            text <$> out = page_content ∘ fst <$> results ∧
            result_metadata <$> out = metadata ∘ fst <$> results ∧
            score <$> out = snd <$> results).
Proof.
  intros Hc. rewrite (search_cached st query file_name top_k vs Hc). split.
  - by intros e ->.
  - intros results ->. eexists. split; [done|].
    rewrite <- !list_fmap_compose. by split_and!; apply list_fmap_ext.
Qed.

End ServiceFacts.

(** ** The chunker *)

Module ChunkerFacts.
Import Chunker.
Local Open Scope list_scope.

(** The units of a text, put end to end, are the text. *)
Lemma units_from_concat (rsep acc s : list ascii) :
  concat (units_from rsep acc s) = rev acc ++ s.
Proof.
  revert acc. induction s as [|c s IH]; intros acc; simpl.
  - destruct acc; simpl; by rewrite ?app_nil_r.
  - destruct (is_prefix rsep (c :: acc)); simpl; rewrite IH; simpl;
      by rewrite <- ?app_assoc.
Qed.

Lemma units_concat (sep s : list ascii) : concat (units sep s) = s.
Proof. unfold units. by rewrite units_from_concat. Qed.

(** The empty separator cuts after every character. *)
Lemma units_from_nil_singletons (s : list ascii) :
  Forall (λ u, length u = 1%nat) (units_from [] [] s).
Proof. induction s as [|c s IH]; simpl; by constructor. Qed.

Lemma lastn_length (n : nat) (s : list ascii) :
  length (lastn n s) = (n `min` length s)%nat.
Proof. unfold lastn. rewrite length_drop. lia. Qed.

(** The first chunk [pack] yields extends the open chunk. *)
Lemma pack_head (size overlap : nat) (us : list (list ascii)) (cur : list ascii) :
  ∃ y rest, pack size overlap cur us = (cur ++ y) :: rest.
Proof.
  revert cur. induction us as [|u us IH]; intros cur; simpl.
  - exists [], []. by rewrite app_nil_r.
  - destruct (length cur + length u <=? size)%nat.
    + destruct (IH (cur ++ u)) as (y & rest & ->).
      exists (u ++ y), rest. by rewrite app_assoc.
    + exists [], (pack size overlap (lastn overlap cur ++ u) us).
      by rewrite app_nil_r.
Qed.

(** Removing the overlaps from what [pack] yields gives back the open chunk
    followed by the units. *)
Lemma pack_reassemble (size overlap : nat) (us : list (list ascii))
    (cur : list ascii) :
  reassemble overlap (pack size overlap cur us) = cur ++ concat us.
Proof.
  revert cur. induction us as [|u us IH]; intros cur; simpl.
  - by rewrite app_nil_r.
  - destruct (length cur + length u <=? size)%nat.
    + rewrite IH. by rewrite <- app_assoc.
    + f_equal.
      specialize (IH (lastn overlap cur ++ u)).
      destruct (pack_head size overlap us (lastn overlap cur ++ u))
        as (y & rest & Hp).
      rewrite Hp in IH |- *. simpl in IH |- *.
      rewrite <- !app_assoc in IH. apply app_inv_head in IH.
      rewrite <- lastn_length, <- app_assoc, drop_app_length.
      rewrite <- app_assoc. by f_equal.
Qed.

Lemma chunks_of_reassemble (size overlap : nat) (us : list (list ascii)) :
  reassemble overlap (chunks_of size overlap us) = concat us.
Proof. destruct us as [|u us]; [done|]. apply pack_reassemble. Qed.

Lemma split_with_reassemble (seps : list (list ascii)) (s : list ascii)
    (size overlap : nat) :
  reassemble overlap (split_with seps s size overlap) = s.
Proof.
  induction seps as [|sep seps IH]; simpl.
  - by rewrite chunks_of_reassemble, units_concat.
  - destruct (fits size _); [|done].
    by rewrite chunks_of_reassemble, units_concat.
Qed.

(** Units that leave room for the overlap are packed into chunks within
    [size]. *)
Lemma pack_within (size overlap : nat) (us : list (list ascii))
    (cur : list ascii) :
  (length cur ≤ size)%nat →
  Forall (λ u, (length u + overlap ≤ size)%nat) us →
  Forall (λ c, (length c ≤ size)%nat) (pack size overlap cur us).
Proof.
  revert cur. induction us as [|u us IH]; intros cur Hcur Hus; simpl.
  - by constructor.
  - inversion_clear Hus as [|? ? Hu Hus'].
    destruct (length cur + length u <=? size)%nat eqn:Hfit.
    + apply IH; [|done]. rewrite length_app. by apply Nat.leb_le.
    + constructor; [done|]. apply IH; [|done].
      rewrite length_app, lastn_length. lia.
Qed.

Lemma fits_Forall (size : nat) (chunks : list (list ascii)) :
  fits size chunks = true → Forall (λ c, (length c ≤ size)%nat) chunks.
Proof.
  unfold fits. rewrite forallb_forall, Forall_forall.
  intros H c Hc. apply Nat.leb_le, H. by apply list_elem_of_In.
Qed.

(** Cutting between any two characters always fits. *)
Lemma chunks_of_characters_within (s : list ascii) (size overlap : nat) :
  (overlap < size)%nat →
  Forall (λ c, (length c ≤ size)%nat) (chunks_of size overlap (units [] s)).
Proof.
  intros Hlt. unfold units. simpl.
  pose proof (units_from_nil_singletons s) as Hone.
  destruct (units_from [] [] s) as [|u us]; [constructor|]. simpl.
  inversion_clear Hone as [|? ? Hu Hus].
  apply pack_within; [lia|].
  eapply Forall_impl; [exact Hus|]. simpl. intros; lia.
Qed.

Lemma split_with_within (seps : list (list ascii)) (s : list ascii)
    (size overlap : nat) :
  (overlap < size)%nat →
  Forall (λ c, (length c ≤ size)%nat) (split_with seps s size overlap).
Proof.
  intros Hlt. induction seps as [|sep seps IH]; simpl.
  - by apply chunks_of_characters_within.
  - destruct (fits size _) eqn:Hfit; [by apply fits_Forall|done].
Qed.

Lemma pack_overlapping (size overlap : nat) (us : list (list ascii))
    (cur : list ascii) :
  match pack size overlap cur us with
  | [] => False
  | c :: rest => overlapping overlap c rest
  end.
Proof.
  revert cur. induction us as [|u us IH]; intros cur; simpl; [done|].
  destruct (length cur + length u <=? size)%nat; [apply IH|].
  specialize (IH (lastn overlap cur ++ u)).
  destruct (pack_head size overlap us (lastn overlap cur ++ u))
    as (y & rest & Hp).
  rewrite Hp in IH |- *. simpl. split; [|done].
  rewrite <- app_assoc. by apply prefix_app_r.
Qed.

(** Nothing to accumulate beyond [size]: one chunk. *)
Lemma pack_one_chunk (size overlap : nat) (us : list (list ascii))
    (cur : list ascii) :
  (length cur + length (concat us) ≤ size)%nat →
  pack size overlap cur us = [cur ++ concat us].
Proof.
  revert cur. induction us as [|u us IH]; intros cur; simpl.
  - by rewrite app_nil_r.
  - rewrite length_app. intros Hlen.
    destruct (Nat.leb_spec (length cur + length u) size) as [_|?]; [|lia].
    rewrite IH by (rewrite length_app; lia). by rewrite app_assoc.
Qed.

(** The edge cases of the design: the empty text has no chunk, and a text
    within [size] is its own single chunk. *)
Lemma split_empty (size overlap : nat) :
  (overlap < size)%nat → split [] size overlap = Return [].
Proof.
  intros Hlt. unfold split.
  by destruct (Nat.ltb_spec overlap size) as [_|?]; [|lia].
Qed.

Lemma split_short (s : list ascii) (size overlap : nat) :
  (overlap < size)%nat → s ≠ [] → (length s ≤ size)%nat →
  split s size overlap = Return [s].
Proof.
  intros Hlt Hne Hlen. unfold split.
  destruct (Nat.ltb_spec overlap size) as [_|?]; [|lia]. f_equal.
  unfold separators, split_with.
  pose proof (units_concat ["010"; "010"]%char s) as Hcat.
  destruct (units _ s) as [|u us] eqn:Hu.
  { simpl in Hcat. congruence. }
  assert (Hone : chunks_of size overlap (u :: us) = [s]).
  { simpl. rewrite pack_one_chunk.
    - by rewrite <- Hcat.
    - rewrite <- length_app. simpl in Hcat. by rewrite Hcat. }
  rewrite Hone. unfold fits. simpl.
  by destruct (Nat.leb_spec (length s) size) as [_|?]; [|lia].
Qed.

(** The example of the design: 2000 characters without a separator, chunk
    size 1000 and overlap 200, give three chunks. *)
Lemma split_2000_characters :
  result_map (fmap length) (split (replicate 2000 "a"%char) 1000 200) =
    Return [1000; 1000; 400]%nat.
Proof. vm_compute. reflexivity. Qed.

Lemma chunks_of_chained (size overlap : nat) (us : list (list ascii)) :
  chained overlap (chunks_of size overlap us).
Proof.
  destruct us as [|u us]; [done|]. simpl. unfold chained.
  pose proof (pack_overlapping size overlap us u) as Hp.
  by destruct (pack size overlap u us).
Qed.

Lemma split_with_chained (seps : list (list ascii)) (s : list ascii)
    (size overlap : nat) :
  chained overlap (split_with seps s size overlap).
Proof.
  induction seps as [|sep seps IH]; simpl.
  - apply chunks_of_chained.
  - destruct (fits size _); [apply chunks_of_chained|done].
Qed.

(** What [chained] says of two chunks in a row: the characters that
    [reassemble] drops from the second are the last characters of the
    first. *)
Lemma overlapping_lookup (overlap : nat) (chunks : list (list ascii))
    (first : list ascii) (i : nat) (prev c : list ascii) :
  overlapping overlap first chunks →
  (first :: chunks) !! i = Some prev →
  chunks !! i = Some c →
  take (overlap `min` length prev) c = lastn overlap prev.
Proof.
  revert first i. induction chunks as [|x chunks IH]; intros first i; [done|].
  simpl. intros [Hpre Hrest]. destruct i as [|i]; simpl.
  - intros [= <-] [= <-]. destruct Hpre as [k ->].
    by rewrite <- lastn_length, take_app_length.
  - intros Hprev Hc. by apply (IH x i).
Qed.

(** C8: for every text and every chunk size above the overlap, the splitter
    returns chunks that are all within the chunk size, each chunk after the
    first starts with the last [overlap] characters of the chunk before it
    (all of it when it is shorter), and the chunks concatenated with these
    overlaps removed are the text. *)
Theorem split_reassembles_within_size (s : list ascii) (size overlap : nat) :
  (overlap < size)%nat →
  ∃ chunks,
    split s size overlap = Return chunks ∧
    reassemble overlap chunks = s ∧
    Forall (λ c, (length c ≤ size)%nat) chunks ∧
    chained overlap chunks ∧
    (∀ (i : nat) prev c,
       chunks !! i = Some prev → chunks !! S i = Some c →
       take (overlap `min` length prev) c = lastn overlap prev).
Proof.
  intros Hlt. exists (split_with separators s size overlap).
  pose proof (split_with_chained separators s size overlap) as Hchained.
  split_and!.
  - unfold split. by destruct (Nat.ltb_spec overlap size) as [_|?]; [|lia].
  - apply split_with_reassemble.
  - by apply split_with_within.
  - done.
  - intros i prev c Hprev Hc.
    destruct (split_with separators s size overlap) as [|first chunks]; [done|].
    by apply (overlapping_lookup overlap chunks first i).
Qed.

End ChunkerFacts.

(** ** The vector index *)

Module VectorIndexFacts.
Import VectorIndex.
Local Open Scope list_scope.

#[global] Instance closer_total : Total closer.
Proof. intros [o1 d1] [o2 d2]. unfold closer. simpl. lia. Qed.

#[global] Instance closer_transitive : Transitive closer.
Proof. intros [o1 d1] [o2 d2] [o3 d3]. unfold closer. simpl. lia. Qed.

Section Metric.
Variable distance : vector → vector → Z.

(** The candidates: every vector with its ordinal and its distance. *)
Lemma ranking_Permutation (ix : t) (q : vector) :
  ranking distance ix q ≡ₚ imap (λ i v, (i, distance q v)) (vectors ix).
Proof. apply merge_sort_Permutation. Qed.

Lemma ranking_sorted (ix : t) (q : vector) :
  StronglySorted closer (ranking distance ix q).
Proof. apply StronglySorted_merge_sort; apply _. Qed.

Lemma ranking_length (ix : t) (q : vector) :
  length (ranking distance ix q) = size ix.
Proof. by rewrite ranking_Permutation, length_imap. Qed.

Lemma ranking_ordinals (ix : t) (q : vector) :
  NoDup (ranking distance ix q).*1.
Proof.
  rewrite ranking_Permutation.
  assert ((imap (λ i v, (i, distance q v)) (vectors ix)).*1 =
          seq 0 (length (vectors ix))) as ->; [|apply NoDup_seq].
  apply list_eq. intros i. rewrite list_lookup_fmap, list_lookup_imap.
  destruct (vectors ix !! i) eqn:Hi; simpl; symmetry.
  - apply lookup_seq. split; [done|]. by eapply lookup_lt_Some.
  - apply lookup_seq_ge. by apply lookup_ge_None.
Qed.

Lemma elem_of_ranking (ix : t) (q : vector) (o : nat) (d : Z) :
  (o, d) ∈ ranking distance ix q ↔
  ∃ v, vectors ix !! o = Some v ∧ d = distance q v.
Proof.
  rewrite ranking_Permutation, elem_of_lookup_imap. split.
  - intros (i & v & [= -> ->] & Hv). eauto.
  - intros (v & Hv & ->). eauto.
Qed.

(** Among pairs with different ordinals, [closer] is the strict order:
    ascending distance, and the lower ordinal first on a tie. *)
Lemma StronglySorted_closer_before (hits : list (nat * Z)) :
  StronglySorted closer hits → NoDup hits.*1 → StronglySorted before hits.
Proof.
  induction 1 as [|h hits Hs IH Hall]; simpl; intros Hnd; [constructor|].
  apply NoDup_cons in Hnd as [Hh Hnd].
  constructor; [by apply IH|].
  rewrite Forall_forall in Hall |- *. intros h' Hh'.
  specialize (Hall h' Hh').
  assert (h.1 ≠ h'.1).
  { intros Heq. apply Hh. rewrite Heq. by apply list_elem_of_fmap_2. }
  unfold closer in Hall. unfold before. lia.
Qed.

(** C5: on an index and a query vector of its dimension, [search] answers
    (ordinal, distance) pairs in ascending distance, the lower ordinal first
    among equal distances; each pair is a vector of the index with its
    distance to the query, no vector left out is better than one answered;
    the number of answers is [top_k] clamped to the size of the index; and
    a [top_k] of zero or less is rejected. *)
Theorem search_ranked (ix : t) (q : vector) (top_k : Z) :
  length q = dim ix →
  (top_k ≤ 0 → search distance ix q top_k = Raise InvalidInput) ∧
  (0 < top_k →
   ∃ hits,
     search distance ix q top_k = Return hits ∧
     length hits = (Z.to_nat top_k `min` size ix)%nat ∧
     StronglySorted before hits ∧
     (∀ o d, (o, d) ∈ hits →
        ∃ v, vectors ix !! o = Some v ∧ d = distance q v) ∧
     (∀ o v, vectors ix !! o = Some v → (o, distance q v) ∉ hits →
        ∀ h, h ∈ hits → before h (o, distance q v))).
Proof.
  intros Hdim. unfold search. split.
  - intros Hk. by destruct (Z.leb_spec top_k 0) as [_|?]; [|lia].
  - intros Hk. destruct (Z.leb_spec top_k 0) as [?|_]; [lia|].
    rewrite Hdim, Nat.eqb_refl. simpl.
    set (n := (Z.to_nat top_k `min` size ix)%nat).
    pose proof (ranking_sorted ix q) as Hsorted.
    pose proof (ranking_ordinals ix q) as Hnodup.
    rewrite <- (take_drop n (ranking distance ix q)) in Hsorted, Hnodup.
    apply StronglySorted_app in Hsorted as (Hcross & Htake & _).
    rewrite fmap_app in Hnodup.
    apply NoDup_app in Hnodup as (Hnd & Hdisj & _).
    eexists. split_and!; [done|..].
    + rewrite length_take, ranking_length. lia.
    + by apply StronglySorted_closer_before.
    + intros o d Hin. apply elem_of_ranking.
      eapply elem_of_take in Hin as (i & Hi & _).
      by eapply list_elem_of_lookup_2.
    + intros o v Hv Hout h Hh.
      assert (Hrest : (o, distance q v) ∈ drop n (ranking distance ix q)).
      { assert (Hall : (o, distance q v) ∈ ranking distance ix q)
          by (apply elem_of_ranking; eauto).
        rewrite <- (take_drop n (ranking distance ix q)), elem_of_app in Hall.
        by destruct Hall. }
      specialize (Hcross h (o, distance q v) Hh Hrest).
      assert (h.1 ≠ o).
      { intros <-. apply (Hdisj h.1).
        - by apply list_elem_of_fmap_2.
        - by apply (list_elem_of_fmap_2 fst) in Hrest. }
      unfold closer in Hcross. unfold before. simpl in *. lia.
Qed.

End Metric.

End VectorIndexFacts.

(** ** The instance: the contracts it meets, and the properties run on it *)

Module FixtureFacts.
Import Fixture.

(** The store builder indexes one vector per document. *)
Lemma from_documents_size (documents : list Document) (s : store) :
  from_documents documents = Return s →
  VectorIndex.size (index s) = length documents.
Proof.
  unfold from_documents, VectorIndex.build.
  destruct (forallb _ _); [|done]. intros [= <-].
  unfold VectorIndex.size. simpl. by rewrite length_fmap.
Qed.

(** A built store has the provider's dimension, and is read back from the
    artifacts written for it. *)
Lemma from_documents_dim (documents : list Document) (s : store) :
  from_documents documents = Return s → VectorIndex.dim (index s) = dimension.
Proof.
  unfold from_documents, VectorIndex.build.
  destruct (forallb _ _); [|done]. by intros [= <-].
Qed.

Lemma load_local_save_local (s : store) :
  VectorIndex.dim (index s) = dimension → load_local (save_local s) = Return s.
Proof.
  intros Hd. unfold load_local, save_local. simpl.
  rewrite Hd, Nat.eqb_refl. by destruct s.
Qed.

(** An index without vectors answers every query with nothing. *)
Lemma empty_store_no_answer (query : string) (top_k : Z) :
  0 < top_k → similarity_search_with_score empty_store query top_k = Return [].
Proof.
  intros Hk. unfold similarity_search_with_score, VectorIndex.search.
  destruct (Z.leb_spec top_k 0) as [?|_]; [lia|]. simpl.
  by rewrite Nat.min_0_r.
Qed.

(** The directory of [broken] exists and does not load. *)
Lemma broken_corrupted : corrupted broken "notes.pdf".
Proof.
  split; [reflexivity|]. exists broken_dir, LoadFailure. split; reflexivity.
Qed.

Lemma broken_unavailable : unavailable broken "notes.pdf".
Proof. destruct broken_corrupted as [Hc Hd]. split; [exact Hc|by right]. Qed.

Lemma empty_absent (file_name : string) : absent empty file_name.
Proof. split; reflexivity. Qed.

(** *** C1 *)

Lemma search_unavailable_store_is_empty_witness :
  unavailable broken "notes.pdf" ∧
  search "lazy dog" "notes.pdf" 5 broken = (Return [], broken).
Proof.
  split; [exact broken_unavailable|].
  exact (search_unavailable_store_is_empty broken "lazy dog" "notes.pdf" 5
           broken_unavailable).
Defined.

(** On the service that holds nothing, and on the one with the broken
    directory, [search] returns the empty list where the statement of the
    design wants an error. *)
Lemma search_unavailable_store_counterexample :
  ¬ search_reports_unavailable_store empty "lazy dog" "missing.pdf" 5 ∧
  ¬ search_reports_unavailable_store broken "lazy dog" "notes.pdf" 5.
Proof.
  split; intros H.
  - destruct H as (e & st' & He); [|discriminate He].
    destruct (empty_absent "missing.pdf") as [Hc Hd]. split; [exact Hc|by left].
  - destruct H as (e & st' & He); [|discriminate He].
    exact broken_unavailable.
Qed.

(** *** C2 *)

Lemma load_corrupted_same_as_absent_witness :
  corrupted broken "notes.pdf" ∧ absent empty "notes.pdf" ∧
  load_vector_store "notes.pdf" broken = (Return None, broken) ∧
  load_vector_store "notes.pdf" empty = (Return None, empty).
Proof.
  split; [exact broken_corrupted|]. split; [exact (empty_absent "notes.pdf")|].
  exact (load_corrupted_same_as_absent broken empty "notes.pdf"
           broken_corrupted (empty_absent "notes.pdf")).
Defined.

(** The broken directory gets the answer of a missing one. *)
Lemma load_corrupted_counterexample :
  ¬ load_tells_corrupted_from_absent broken "notes.pdf".
Proof.
  intros H.
  apply (H broken_corrupted empty (empty_absent "notes.pdf")).
  reflexivity.
Qed.

(** *** C3 *)

Lemma ingest_fox :
  create_vector_store_from_text fox "report.pdf" None empty =
    (Return report_store, with_report).
Proof. reflexivity. Qed.

Lemma build_then_load_round_trip_witness :
  load_local (save_local report_store) = Return report_store ∧
  create_vector_store_from_text fox "report.pdf" None empty =
    (Return report_store, with_report) ∧
  load_vector_store "report.pdf" (clear_cache with_report) =
    (Return (Some report_store),
     {| vector_stores := {["report.pdf" := report_store]};
        disk := disk with_report |}) ∧
  ∀ query top_k,
    (search query "report.pdf" top_k (clear_cache with_report)).1 =
    (search query "report.pdf" top_k with_report).1.
Proof.
  assert (H1 : load_local (save_local report_store) = Return report_store)
    by reflexivity.
  split; [exact H1|]. split; [exact ingest_fox|].
  exact (build_then_load_round_trip empty with_report fox "report.pdf" None
           report_store H1 ingest_fox).
Defined.

(** *** C4 *)

Lemma split_empty_text :
  split_text chunk_size chunk_overlap separators "" = Return [].
Proof. vm_compute. reflexivity. Qed.

Lemma blank_writable (d : StoreDir) :
  disk empty !! Pathlib.stem "blank.pdf" = Some d → writable d = true.
Proof. intros Hd. discriminate Hd. Qed.

Lemma ingest_text_without_chunks_witness :
  split_text chunk_size chunk_overlap separators "" = Return [] ∧
  from_documents [] = Return empty_store ∧
  index_ntotal empty_store = 0%nat ∧
  create_vector_store_from_text "" "blank.pdf" None empty =
    (Return empty_store, ingested empty "blank.pdf" empty_store) ∧
  get_store_info "blank.pdf" (ingested empty "blank.pdf" empty_store) =
    (Return (Some {| info_file_name := "blank.pdf";
                     total_chunks := index_ntotal empty_store;
                     embedding_dimension := index_d empty_store |}),
     ingested empty "blank.pdf" empty_store) ∧
  ∀ query top_k,
    search query "blank.pdf" top_k (ingested empty "blank.pdf" empty_store) =
      (result_map (map (λ r : Document * Score,
                          {| text := page_content r.1;
                             result_metadata := metadata r.1;
                             score := r.2 |}))
         (similarity_search_with_score empty_store query top_k),
       ingested empty "blank.pdf" empty_store).
Proof.
  split; [exact split_empty_text|]. split; [reflexivity|]. split; [reflexivity|].
  exact (proj2 (proj2 (ingest_text_without_chunks empty "" "blank.pdf" None
                         split_empty_text))
           empty_store eq_refl blank_writable).
Defined.

(** With the store builder of LangChain the empty text is not ingested: the
    builder raises on the empty list and so does the ingestion, which
    leaves nothing behind. *)
Lemma empty_text_counterexample :
  @create_vector_store_from_text Langchain.backend "" "blank.pdf" None
    Langchain.empty = (Raise IndexError, Langchain.empty) ∧
  ¬ @empty_text_is_ingested Langchain.backend Langchain.empty "blank.pdf" None.
Proof.
  assert (Hc : @create_vector_store_from_text Langchain.backend "" "blank.pdf"
                 None Langchain.empty = (Raise IndexError, Langchain.empty))
    by reflexivity.
  split; [exact Hc|].
  intros (vs & st1 & Hcreate & _).
  pose proof (eq_trans (eq_sym Hc) Hcreate) as Heq. discriminate Heq.
Qed.

(** *** C5 *)

Lemma search_ranked_witness :
  length [0; 0] = VectorIndex.dim three_vectors ∧
  VectorIndex.search VectorIndex.l2 three_vectors [0; 0] 7 =
    Return [(1%nat, 1); (0%nat, 25); (2%nat, 25)] ∧
  (7 ≤ 0 →
     VectorIndex.search VectorIndex.l2 three_vectors [0; 0] 7 =
       Raise InvalidInput) ∧
  (0 < 7 →
   ∃ hits,
     VectorIndex.search VectorIndex.l2 three_vectors [0; 0] 7 = Return hits ∧
     length hits = (Z.to_nat 7 `min` VectorIndex.size three_vectors)%nat ∧
     StronglySorted VectorIndex.before hits ∧
     (∀ o d, (o, d) ∈ hits →
        ∃ v, VectorIndex.vectors three_vectors !! o = Some v ∧
             d = VectorIndex.l2 [0; 0] v) ∧
     (∀ o v, VectorIndex.vectors three_vectors !! o = Some v →
        (o, VectorIndex.l2 [0; 0] v) ∉ hits →
        ∀ h, h ∈ hits → VectorIndex.before h (o, VectorIndex.l2 [0; 0] v))).
Proof.
  split; [reflexivity|]. split; [reflexivity|].
  exact (VectorIndexFacts.search_ranked VectorIndex.l2 three_vectors [0; 0] 7
           eq_refl).
Defined.

(** *** C6 *)

Lemma ingest_beta :
  create_vector_store_from_text "beta" "report.txt" None with_report =
    (Return beta_store, with_both).
Proof. reflexivity. Qed.

Lemma ingest_twice_same_stem_witness :
  Pathlib.stem "report.pdf" = Pathlib.stem "report.txt" ∧
  disk with_both =
    <[Pathlib.stem "report.txt" :=
        {| files := save_local beta_store; writable := true |}]> (disk empty) ∧
  ("report.pdf" = "report.txt" →
     vector_stores with_both = <["report.txt" := beta_store]> (vector_stores empty)) ∧
  ("report.pdf" ≠ "report.txt" →
     vector_stores with_both !! "report.pdf" = Some report_store ∧
     vector_stores with_both !! "report.txt" = Some beta_store).
Proof.
  assert (H : Pathlib.stem "report.pdf" = Pathlib.stem "report.txt")
    by reflexivity.
  split; [exact H|].
  exact (ingest_twice_same_stem empty with_report with_both
           fox "report.pdf" "beta" "report.txt" None None
           report_store beta_store H ingest_fox ingest_beta).
Defined.

(** [report.pdf] then [report.txt]: one directory, two dictionary entries. *)
Lemma same_stem_one_record_counterexample :
  ¬ same_stem_one_record fox "report.pdf" "beta" "report.txt" None.
Proof.
  intros H.
  destruct (H eq_refl report_store beta_store with_report with_both
              ingest_fox ingest_beta) as [Hsize _].
  vm_compute in Hsize. discriminate Hsize.
Qed.

(** *** C7 *)

Lemma delete_report :
  delete_vector_store "report.pdf" with_report = (Return true, empty).
Proof. reflexivity. Qed.

Lemma delete_then_load_then_delete_witness :
  delete_vector_store "report.pdf" with_report = (Return true, empty) ∧
  load_vector_store "report.pdf" empty = (Return None, empty) ∧
  delete_vector_store "report.pdf" empty = (Return false, empty).
Proof.
  split; [exact delete_report|].
  exact (delete_then_load_then_delete with_report empty "report.pdf"
           delete_report).
Defined.

(** *** C8 *)

Lemma split_alphabet :
  result_map (fmap string_of_list_ascii)
    (Chunker.split (list_ascii_of_string "abcdefghijklmnopqrstuvwxyz") 10 3) =
    Return ["abcdefghij"; "hijklmnopq"; "opqrstuvwx"; "vwxyz"].
Proof. vm_compute. reflexivity. Qed.

Lemma split_reassembles_within_size_witness :
  (3 < 10)%nat ∧
  result_map (fmap string_of_list_ascii)
    (Chunker.split (list_ascii_of_string "abcdefghijklmnopqrstuvwxyz") 10 3) =
    Return ["abcdefghij"; "hijklmnopq"; "opqrstuvwx"; "vwxyz"] ∧
  ∃ chunks,
    Chunker.split (list_ascii_of_string "abcdefghijklmnopqrstuvwxyz") 10 3 =
      Return chunks ∧
    Chunker.reassemble 3 chunks =
      list_ascii_of_string "abcdefghijklmnopqrstuvwxyz" ∧
    Forall (λ c, (length c ≤ 10)%nat) chunks ∧
    Chunker.chained 3 chunks ∧
    (∀ (i : nat) prev c,
       chunks !! i = Some prev → chunks !! S i = Some c →
       take (3 `min` length prev) c = Chunker.lastn 3 prev).
Proof.
  assert (H : (3 < 10)%nat) by lia.
  split; [exact H|]. split; [exact split_alphabet|].
  exact (ChunkerFacts.split_reassembles_within_size
           (list_ascii_of_string "abcdefghijklmnopqrstuvwxyz") 10 3 H).
Defined.

(** *** C9 *)

Lemma route_metadata_no_ordinal (m : gmap string value) :
  Some route_metadata = Some m → m !! "chunk_index" = None.
Proof. intros [= <-]. reflexivity. Qed.

Lemma ingest_tagged :
  create_vector_store_from_text fox "report.pdf" (Some route_metadata) empty =
    (Return tagged_store, ingested empty "report.pdf" tagged_store).
Proof. reflexivity. Qed.

Lemma split_fox :
  split_text chunk_size chunk_overlap separators fox = Return [fox].
Proof. vm_compute. reflexivity. Qed.

Lemma split_long :
  split_text chunk_size chunk_overlap separators long_text = Return long_chunks.
Proof. vm_compute. reflexivity. Qed.

Lemma build_long :
  from_documents (make_documents long_chunks "long.pdf" (Some route_metadata)) =
    Return long_store.
Proof. reflexivity. Qed.

Lemma ingest_long :
  create_vector_store_from_text long_text "long.pdf" (Some route_metadata) empty =
    (Return long_store, ingested empty "long.pdf" long_store).
Proof.
  apply (create_vector_store_from_text_succeeds empty long_text "long.pdf"
           (Some route_metadata) long_chunks long_store split_long build_long).
  intros d Hd. discriminate Hd.
Qed.

Lemma long_ordinals :
  String.length <$> long_chunks = [1000; 399]%nat ∧
  (λ d, metadata d !! "chunk_index") <$> docs long_store =
    [Some (VInt 0); Some (VInt 1)].
Proof. split; vm_compute; reflexivity. Qed.

Lemma chunk_ordinals_and_index_size_witness :
  (∀ documents s, from_documents documents = Return s →
     VectorIndex.size (index s) = length documents) ∧
  (∀ m, Some route_metadata = Some m → m !! "chunk_index" = None) ∧
  split_text chunk_size chunk_overlap separators long_text = Return long_chunks ∧
  create_vector_store_from_text long_text "long.pdf" (Some route_metadata) empty =
    (Return long_store, ingested empty "long.pdf" long_store) ∧
  (String.length <$> long_chunks = [1000; 399]%nat ∧
   (λ d, metadata d !! "chunk_index") <$> docs long_store =
     [Some (VInt 0); Some (VInt 1)]) ∧
  from_documents (make_documents long_chunks "long.pdf" (Some route_metadata)) =
    Return long_store ∧
  ingested empty "long.pdf" long_store = ingested empty "long.pdf" long_store ∧
  length (make_documents long_chunks "long.pdf" (Some route_metadata)) =
    length long_chunks ∧
  (∀ (i : nat) chunk, long_chunks !! i = Some chunk →
     ∃ doc, make_documents long_chunks "long.pdf" (Some route_metadata) !! i =
              Some doc ∧
            page_content doc = chunk ∧
            metadata doc !! "chunk_index" = Some (VInt (Z.of_nat i))) ∧
  VectorIndex.size (index long_store) = length long_chunks ∧
  get_store_info "long.pdf" (ingested empty "long.pdf" long_store) =
    (Return (Some {| info_file_name := "long.pdf";
                     total_chunks := length long_chunks;
                     embedding_dimension := VectorIndex.dim (index long_store) |}),
     ingested empty "long.pdf" long_store).
Proof.
  split; [exact from_documents_size|]. split; [exact route_metadata_no_ordinal|].
  split; [exact split_long|]. split; [exact ingest_long|].
  split; [exact long_ordinals|].
  exact (chunk_ordinals_and_index_size empty
           (ingested empty "long.pdf" long_store) long_text "long.pdf"
           (Some route_metadata) long_chunks long_store
           from_documents_size route_metadata_no_ordinal split_long ingest_long).
Defined.

(** Caller metadata with the key ["chunk_index"]: the ingestion succeeds and
    the only chunk is stored with ordinal 7, not 0. *)
Lemma chunk_ordinals_counterexample :
  ¬ ordinals_count_from_zero "hello world" "doc.pdf" (Some clashing_metadata) ∧
  create_vector_store_from_text "hello world" "doc.pdf"
    (Some clashing_metadata) empty =
    (Return clashing_store, ingested empty "doc.pdf" clashing_store) ∧
  (λ d, metadata d !! "chunk_index") <$> docs clashing_store = [Some (VInt 7)].
Proof.
  split_and!.
  - intros H.
    assert (Hs : split_text chunk_size chunk_overlap separators "hello world" =
                 Return ["hello world"]) by (vm_compute; reflexivity).
    specialize (H ["hello world"] Hs 0%nat _ eq_refl).
    vm_compute in H. discriminate H.
  - reflexivity.
  - vm_compute. reflexivity.
Qed.

(** *** X2, X3 *)

Lemma failed_save_keeps_dictionary_entry_witness :
  split_text chunk_size chunk_overlap separators fox = Return [fox] ∧
  from_documents (make_documents [fox] "report.pdf" None) = Return report_store ∧
  disk protected !! Pathlib.stem "report.pdf" =
    Some {| files := files broken_dir; writable := false |} ∧
  create_vector_store_from_text fox "report.pdf" None protected =
    (Raise OSError,
     {| vector_stores := <["report.pdf" := report_store]> (vector_stores protected);
        disk := disk protected |}).
Proof.
  assert (H2 : from_documents (make_documents [fox] "report.pdf" None) =
               Return report_store) by reflexivity.
  assert (H3 : disk protected !! Pathlib.stem "report.pdf" =
               Some {| files := files broken_dir; writable := false |})
    by reflexivity.
  split; [exact split_fox|]. split; [exact H2|]. split; [exact H3|].
  exact (failed_save_keeps_dictionary_entry protected fox "report.pdf" None
           [fox] report_store _ split_fox H2 H3 eq_refl).
Defined.

Lemma search_passes_through_witness :
  vector_stores with_report !! "report.pdf" = Some report_store ∧
  (∀ e, similarity_search_with_score report_store "lazy dog" 0 = Raise e →
     search "lazy dog" "report.pdf" 0 with_report = (Raise e, with_report)) ∧
  (∀ results, similarity_search_with_score report_store "lazy dog" 0 = Return results →
     ∃ out, search "lazy dog" "report.pdf" 0 with_report = (Return out, with_report) ∧
            text <$> out = page_content ∘ fst <$> results ∧
            result_metadata <$> out = metadata ∘ fst <$> results ∧
            score <$> out = snd <$> results).
Proof.
  assert (H : vector_stores with_report !! "report.pdf" = Some report_store)
    by reflexivity.
  split; [exact H|].
  exact (search_passes_through with_report "lazy dog" "report.pdf" 0
           report_store H).
Defined.

End FixtureFacts.

(** ** Stems *)

Module PathlibFacts.
Import Pathlib Names.
Local Open Scope list_scope.

Lemma contains_String (c a : ascii) (s : string) :
  contains c (String a s) ↔ c = a ∨ contains c s.
Proof. unfold contains. simpl. by rewrite elem_of_cons. Qed.

Lemma contains_empty (c : ascii) : ¬ contains c "".
Proof. unfold contains. simpl. apply not_elem_of_nil. Qed.

Lemma contains_append (c : ascii) (s1 s2 : string) :
  contains c (s1 +:+ s2) ↔ contains c s1 ∨ contains c s2.
Proof.
  induction s1 as [|a s1 IH].
  - change ("" +:+ s2) with s2.
    split; [by right|]. intros [H|H]; [by apply contains_empty in H|done].
  - change (String a s1 +:+ s2) with (String a (s1 +:+ s2)).
    rewrite !contains_String, IH. tauto.
Qed.

(** [split_on] always yields a component. *)
Lemma split_on_cons (sep : ascii) (s : string) :
  ∃ x xs, split_on sep s = x :: xs.
Proof.
  destruct s as [|c s]; simpl; [by eauto|].
  destruct (Ascii.eqb c sep); [by eauto|].
  destruct (split_on sep s); by eauto.
Qed.

(** No component holds the separator. *)
Lemma split_on_no_sep (sep : ascii) (s x : string) :
  x ∈ split_on sep s → ¬ contains sep x.
Proof.
  revert x. induction s as [|c s IH]; simpl; intros x Hx.
  - apply list_elem_of_singleton in Hx as ->. apply contains_empty.
  - destruct (Ascii.eqb_spec c sep) as [->|Hne].
    + apply elem_of_cons in Hx as [->|Hx]; [apply contains_empty|by apply IH].
    + destruct (split_on sep s) as [|y ys] eqn:Hs.
      * apply list_elem_of_singleton in Hx as ->.
        rewrite contains_String. intros [->|H]; [done|by apply contains_empty in H].
      * apply elem_of_cons in Hx as [->|Hx].
        -- rewrite contains_String. intros [->|H]; [done|].
           by apply (IH y); [left|].
        -- apply IH. by right.
Qed.

(** A string without the separator is its only component. *)
Lemma split_on_whole (sep : ascii) (s : string) :
  ¬ contains sep s → split_on sep s = [s].
Proof.
  induction s as [|c s IH]; simpl; [done|]. rewrite contains_String.
  intros Hc. destruct (Ascii.eqb_spec c sep) as [->|Hne]; [by destruct Hc; left|].
  rewrite IH; [done|]. intros H. apply Hc. by right.
Qed.

(** The components of [a/b] are those of [a] followed by those of [b]. *)
Lemma split_on_join (sep : ascii) (a b : string) :
  split_on sep (a +:+ String sep b) = split_on sep a ++ split_on sep b.
Proof.
  induction a as [|c a IH]; simpl.
  - by rewrite Ascii.eqb_refl.
  - destruct (Ascii.eqb c sep); [by rewrite IH|].
    rewrite IH. destruct (split_on_cons sep a) as (x & xs & ->). done.
Qed.

Lemma name_no_slash (p : string) : ¬ contains "/" (name p).
Proof.
  unfold name, parts.
  destruct (filter _ (split_on "/" p)) as [|x xs] eqn:Hf using rev_ind.
  - apply contains_empty.
  - rewrite last_last.
    assert (Hx : x ∈ filter (λ x : string, x ≠ "" ∧ x ≠ ".") (split_on "/" p))
      by (rewrite Hf; set_solver).
    apply list_elem_of_filter in Hx as [_ Hx]. by apply split_on_no_sep in Hx.
Qed.

Lemma contains_substring (c : ascii) (n m : nat) (s : string) :
  contains c (substring n m s) → contains c s.
Proof.
  revert n m. induction s as [|a s IH]; intros n m; simpl.
  - by destruct n, m.
  - destruct n as [|n].
    + destruct m as [|m]; [by intros H%contains_empty|].
      rewrite !contains_String. intros [->|H]; [by left|right; by eapply IH].
    + rewrite contains_String. intros H. right. by eapply IH.
Qed.

(** The stem never holds a slash. *)
Lemma stem_no_slash (p : string) : ¬ contains "/" (stem p).
Proof.
  unfold stem. pose proof (name_no_slash p) as Hn.
  destruct (rfind "." (name p)) as [i|]; [|done].
  destruct (_ && _); [|done]. intros H. by apply contains_substring in H.
Qed.

(** The name of a path that has no slash and is neither empty nor the dot is
    the path itself. *)
Lemma name_whole (s : string) :
  ¬ contains "/" s → s ≠ "" → s ≠ "." → name s = s.
Proof.
  intros Hs He Hd. unfold name, parts. rewrite split_on_whole by done.
  rewrite filter_cons_True by done. done.
Qed.

(** A directory part in front of a path that has a name does not change the
    name, hence not the stem. *)
Lemma name_join (dir f : string) :
  name f ≠ "" → name (dir +:+ "/" +:+ f) = name f.
Proof.
  unfold name, parts. intros Hf.
  change ("/" +:+ f) with (String "/" f).
  rewrite split_on_join, filter_app.
  destruct (filter _ (split_on "/" f)) as [|x xs] eqn:Hx using rev_ind; [done|].
  by rewrite app_assoc, !last_last.
Qed.

Lemma stem_join (dir f : string) :
  name f ≠ "" → stem (dir +:+ "/" +:+ f) = stem f.
Proof. intros Hf. unfold stem. by rewrite name_join. Qed.

Lemma rfind_None (c : ascii) (s : string) :
  ¬ contains c s → rfind c s = None.
Proof.
  induction s as [|a s IH]; simpl; [done|]. rewrite contains_String.
  intros Hc. rewrite IH by tauto.
  destruct (Ascii.eqb_spec a c) as [->|?]; [|done]. destruct Hc. by left.
Qed.

(** The last dot of [f.ext], when [ext] has none, is the one written. *)
Lemma rfind_suffix (f ext : string) :
  ¬ contains "." ext →
  rfind "." (f +:+ String "." ext) = Some (String.length f).
Proof.
  intros Hext. induction f as [|a f IH]; simpl.
  - by rewrite rfind_None.
  - by rewrite IH.
Qed.

Lemma substring_prefix (f rest : string) :
  substring 0 (String.length f) (f +:+ rest) = f.
Proof.
  induction f as [|a f IH]; simpl; [by destruct rest|]. by rewrite IH.
Qed.

Lemma length_append (s1 s2 : string) :
  String.length (s1 +:+ s2) = (String.length s1 + String.length s2)%nat.
Proof. induction s1 as [|a s1 IH]; simpl; [done|]. by rewrite IH. Qed.

(** The stem of [f.ext] is [f], for a base [f] that is not empty and has no
    slash and a suffix [ext] that is not empty and has neither dot nor
    slash. *)
Lemma stem_suffix (f ext : string) :
  f ≠ "" → ¬ contains "/" f →
  ext ≠ "" → ¬ contains "." ext → ¬ contains "/" ext →
  stem (f +:+ "." +:+ ext) = f.
Proof.
  intros Hf Hfs He Hed Hes.
  change ("." +:+ ext) with (String "." ext).
  unfold stem. rewrite name_whole.
  - rewrite rfind_suffix by done.
    rewrite length_append. cbn [String.length].
    assert (0 < String.length f)%nat by (destruct f; [done|simpl; lia]).
    assert (0 < String.length ext)%nat by (destruct ext; [done|simpl; lia]).
    destruct (Nat.ltb_spec 0 (String.length f)) as [_|?]; [|lia].
    destruct (Nat.ltb_spec (String.length f)
                (String.length f + S (String.length ext) - 1)) as [_|?]; [|lia].
    cbn [andb]. apply substring_prefix.
  - rewrite contains_append, contains_String. intros [H|[H|H]]; [done| |done].
    discriminate H.
  - by destruct f.
  - destruct f as [|a [|? ?]]; [done| |done]. by destruct ext.
Qed.

(** A plain name is its own stem. *)
Lemma stem_plain (s : string) : plain s → stem s = s.
Proof.
  intros (He & Hs & Hd). unfold stem. rewrite name_whole.
  - by rewrite rfind_None.
  - done.
  - done.
  - intros ->. apply Hd. rewrite contains_String. by left.
Qed.

End PathlibFacts.

(** ** The methods, composed *)

Section ServiceComposition.
Context `{B : Backend}.
Import Names.

Ltac run :=
  unfold bind, ret, raise, lift, get, put, try_except; simpl.

(** The states an ingestion can leave: the one it found (the splitter or the
    store builder raised), the dictionary extended (the save raised), or both
    the dictionary and the disk extended. *)
Lemma create_vector_store_from_text_state (st : State)
    (text file_name : string) (md : option (gmap string value)) :
  (create_vector_store_from_text text file_name md st).2 = st ∨
  ∃ vs,
    (create_vector_store_from_text text file_name md st).2 =
      {| vector_stores := <[file_name := vs]> (vector_stores st); disk := disk st |} ∨
    (create_vector_store_from_text text file_name md st).2 = ingested st file_name vs.
Proof.
  unfold create_vector_store_from_text, save_vector_store, fs_save_local,
    cache_store. run.
  destruct (split_text _ _ _ _) as [chunks|e]; [|by left].
  destruct (from_documents _) as [vs|e]; [|by left]. simpl. right. exists vs.
  destruct (disk st !! Pathlib.stem file_name) as [d|]; [|by right].
  destruct (writable d); simpl; [by right|by left].
Qed.

(** [load_vector_store] leaves the state it found or adds the loaded store
    to the dictionary. *)
Lemma load_vector_store_state (st : State) (file_name : string) :
  (load_vector_store file_name st).2 = st ∨
  ∃ vs,
    vector_stores st !! file_name = None ∧
    (load_vector_store file_name st).1 = Return (Some vs) ∧
    (load_vector_store file_name st).2 =
      {| vector_stores := <[file_name := vs]> (vector_stores st); disk := disk st |}.
Proof.
  destruct (vector_stores st !! file_name) as [vs|] eqn:Hc.
  { left. by rewrite (load_vector_store_cached _ _ _ Hc). }
  destruct (disk st !! Pathlib.stem file_name) as [d|] eqn:Hd.
  - destruct (load_local (files d)) as [vs|e] eqn:Hl.
    + right. exists vs. by rewrite (load_vector_store_from_disk _ _ _ _ Hc Hd Hl).
    + left. by rewrite (load_vector_store_unreadable _ _ _ _ Hc Hd Hl).
  - left. by rewrite (load_vector_store_absent _ _ Hc Hd).
Qed.

(** [search] and [get_store_info] change what [load_vector_store] changes. *)
Lemma search_state (st : State) (query file_name : string) (top_k : Z) :
  (search query file_name top_k st).2 = (load_vector_store file_name st).2.
Proof.
  unfold search, bind. destruct (load_vector_store file_name st) as [[o|e] st1];
    [|done].
  destruct o as [vs|]; [|done]. unfold lift, ret.
  by destruct (similarity_search_with_score vs query top_k).
Qed.

Lemma get_store_info_state (st : State) (file_name : string) :
  (get_store_info file_name st).2 = (load_vector_store file_name st).2.
Proof.
  unfold get_store_info, bind.
  destruct (load_vector_store file_name st) as [[o|e] st1]; [|done].
  by destruct o.
Qed.

(** [delete_vector_store] always evicts, and removes the directory or not. *)
Lemma delete_vector_store_state (st : State) (file_name : string) :
  (delete_vector_store file_name st).2 =
    {| vector_stores := delete file_name (vector_stores st); disk := disk st |} ∨
  (delete_vector_store file_name st).2 =
    {| vector_stores := delete file_name (vector_stores st);
       disk := delete (Pathlib.stem file_name) (disk st) |}.
Proof.
  destruct (disk st !! Pathlib.stem file_name) as [d|] eqn:Hd.
  - destruct (writable d) eqn:Hw.
    + right. by rewrite (delete_vector_store_removes _ _ _ Hd Hw).
    + left. by rewrite (delete_vector_store_protected _ _ _ Hd Hw).
  - left. by rewrite (delete_vector_store_absent _ _ Hd).
Qed.

(** What [load_vector_store] leaves: the disk, and the other entries of the
    dictionary. *)
Lemma load_vector_store_keeps (st : State) (file_name : string) :
  disk (load_vector_store file_name st).2 = disk st ∧
  other_entries_kept file_name st (load_vector_store file_name st).2.
Proof.
  destruct (load_vector_store_state st file_name) as [->|(vs & _ & _ & ->)];
    (split; [done|]); intros g Hg; simpl; by rewrite ?lookup_insert_ne.
Qed.

Lemma create_vector_store_from_text_keeps (st : State)
    (text file_name : string) (md : option (gmap string value)) :
  other_entries_kept file_name st
    (create_vector_store_from_text text file_name md st).2 ∧
  other_directories_kept file_name st
    (create_vector_store_from_text text file_name md st).2.
Proof.
  destruct (create_vector_store_from_text_state st text file_name md)
    as [->|(vs & [->| ->])];
    (split; [intros g Hg|intros k _ Hk]); simpl; by rewrite ?lookup_insert_ne.
Qed.

Lemma delete_vector_store_keeps (st : State) (file_name : string) :
  other_entries_kept file_name st (delete_vector_store file_name st).2 ∧
  other_directories_kept file_name st (delete_vector_store file_name st).2.
Proof.
  destruct (delete_vector_store_state st file_name) as [-> | ->];
    (split; [intros g Hg|intros k _ Hk]); simpl; by rewrite ?lookup_delete_ne.
Qed.

(** X4: whatever a method does for one file name, and whether it returns or
    raises, the dictionary entry of every other file name is as before.
    [load_vector_store], [search] and [get_store_info] write nothing to the
    disk.  When the stem of the file name names a sub-directory,
    [create_vector_store_from_text] and [delete_vector_store] leave every
    other sub-directory as it was. *)
Theorem other_documents_untouched (st : State) (text query file_name : string)
    (md : option (gmap string value)) (top_k : Z) :
  (other_entries_kept file_name st
     (create_vector_store_from_text text file_name md st).2 ∧
   other_entries_kept file_name st (load_vector_store file_name st).2 ∧
   other_entries_kept file_name st (search query file_name top_k st).2 ∧
   other_entries_kept file_name st (get_store_info file_name st).2 ∧
   other_entries_kept file_name st (delete_vector_store file_name st).2) ∧
  (disk (load_vector_store file_name st).2 = disk st ∧
   disk (search query file_name top_k st).2 = disk st ∧
   disk (get_store_info file_name st).2 = disk st) ∧
  (entry_name (Pathlib.stem file_name) →
   other_directories_kept file_name st
     (create_vector_store_from_text text file_name md st).2 ∧
   other_directories_kept file_name st (delete_vector_store file_name st).2).
Proof.
  rewrite search_state, get_store_info_state.
  destruct (load_vector_store_keeps st file_name) as [Hdisk Hload].
  destruct (create_vector_store_from_text_keeps st text file_name md)
    as [Hcreate Hcreate'].
  destruct (delete_vector_store_keeps st file_name) as [Hdelete Hdelete'].
  by split_and!.
Qed.

(** X5: [load_vector_store] never changes the disk, and asking twice is
    asking once: the second call gives the answer of the first and changes
    nothing more. *)
Theorem load_vector_store_idempotent (st : State) (file_name : string) :
  disk (load_vector_store file_name st).2 = disk st ∧
  load_vector_store file_name (load_vector_store file_name st).2 =
    load_vector_store file_name st.
Proof.
  destruct (load_vector_store_state st file_name) as [Hst|(vs & Hc & Hr & Hst)].
  - rewrite Hst. split; [done|].
    destruct (load_vector_store file_name st) as [r st1] eqn:Hl.
    simpl in Hst. by subst.
  - rewrite Hst. split; [done|].
    destruct (load_vector_store file_name st) as [r st1] eqn:Hl.
    simpl in Hr, Hst. subst.
    apply load_vector_store_cached. simpl. by rewrite lookup_insert_eq.
Qed.


(** X7: [delete_vector_store] evicts the dictionary entry of the name it is
    given only.  A store held under another file name with the same stem
    stays in the dictionary and is still what [load_vector_store] answers
    for that name, although its directory is gone. *)
Theorem delete_keeps_same_stem_alias (st st1 : State) (file_name alias : string)
    (vs : FAISS) :
  alias ≠ file_name →
  Pathlib.stem alias = Pathlib.stem file_name →
  vector_stores st !! alias = Some vs →
  delete_vector_store file_name st = (Return true, st1) →
  disk st1 !! Pathlib.stem alias = None ∧
  load_vector_store alias st1 = (Return (Some vs), st1).
Proof.
  intros Hne Hstem Hc Hdel.
  assert (st1 = {| vector_stores := delete file_name (vector_stores st);
                   disk := delete (Pathlib.stem file_name) (disk st) |}) as ->.
  { destruct (disk st !! Pathlib.stem file_name) as [d|] eqn:Hd.
    - destruct (writable d) eqn:Hw.
      + rewrite (delete_vector_store_removes _ _ _ Hd Hw) in Hdel. congruence.
      + rewrite (delete_vector_store_protected _ _ _ Hd Hw) in Hdel. congruence.
    - rewrite (delete_vector_store_absent _ _ Hd) in Hdel. congruence. }
  split.
  - simpl. rewrite Hstem. apply lookup_delete_eq.
  - apply load_vector_store_cached. simpl. by rewrite lookup_delete_ne.
Qed.

(** What [list_vector_stores] lists: the names of the sub-directories. *)
Lemma list_vector_stores_spec (st : State) :
  ∃ names, list_vector_stores st = (Return names, st) ∧
           ∀ x, x ∈ names ↔ entry_name x ∧ is_Some (disk st !! x).
Proof.
  eexists. split; [done|]. intros x.
  by rewrite list_elem_of_filter, elem_of_elements, elem_of_dom.
Qed.

(** X8: after an ingestion that succeeds under a file name whose stem names
    a sub-directory, [list_vector_stores] lists the document under that
    stem, next to exactly what was listed before. *)
Theorem ingested_document_is_listed (st st1 : State) (text file_name : string)
    (md : option (gmap string value)) (vs : FAISS) :
  entry_name (Pathlib.stem file_name) →
  create_vector_store_from_text text file_name md st = (Return vs, st1) →
  ∃ names names1,
    list_vector_stores st = (Return names, st) ∧
    list_vector_stores st1 = (Return names1, st1) ∧
    ∀ x, x ∈ names1 ↔ x = Pathlib.stem file_name ∨ x ∈ names.
Proof.
  intros Hstem Hcreate.
  destruct (create_vector_store_from_text_returns _ _ _ _ _ _ Hcreate)
    as (chunks & _ & _ & ->).
  destruct (list_vector_stores_spec st) as (names & Hl & Hn).
  destruct (list_vector_stores_spec (ingested st file_name vs))
    as (names1 & Hl1 & Hn1).
  exists names, names1. split_and!; [done..|]. intros x.
  rewrite Hn1, Hn. simpl.
  destruct (decide (x = Pathlib.stem file_name)) as [->|Hx].
  - rewrite lookup_insert_eq. split; [by left|eauto].
  - rewrite lookup_insert_ne by done. split; [by right|]. by intros [|].
Qed.

(** X9: after [delete_vector_store] returned true for a file name whose
    stem names a sub-directory, [list_vector_stores] no longer lists that
    stem, and lists everything else it listed before. *)
Theorem deleted_document_is_not_listed (st st1 : State) (file_name : string) :
  entry_name (Pathlib.stem file_name) →
  delete_vector_store file_name st = (Return true, st1) →
  ∃ names names1,
    list_vector_stores st = (Return names, st) ∧
    list_vector_stores st1 = (Return names1, st1) ∧
    ∀ x, x ∈ names1 ↔ x ≠ Pathlib.stem file_name ∧ x ∈ names.
Proof.
  intros Hstem Hdel.
  assert (disk st1 = delete (Pathlib.stem file_name) (disk st)) as Hdisk.
  { destruct (disk st !! Pathlib.stem file_name) as [d|] eqn:Hd.
    - destruct (writable d) eqn:Hw.
      + rewrite (delete_vector_store_removes _ _ _ Hd Hw) in Hdel.
        by inversion Hdel.
      + rewrite (delete_vector_store_protected _ _ _ Hd Hw) in Hdel. congruence.
    - rewrite (delete_vector_store_absent _ _ Hd) in Hdel. congruence. }
  destruct (list_vector_stores_spec st) as (names & Hl & Hn).
  destruct (list_vector_stores_spec st1) as (names1 & Hl1 & Hn1).
  exists names, names1. split_and!; [done..|]. intros x.
  rewrite Hn1, Hn, Hdisk.
  destruct (decide (x = Pathlib.stem file_name)) as [->|Hx].
  - rewrite lookup_delete_eq. split; [by intros [_ [? ?]]|by intros [? _]].
  - rewrite lookup_delete_ne by done. tauto.
Qed.

(** X10: a listed name that is plain (not empty, no slash, no dot) can be
    handed back to [load_vector_store]: it reads the directory of that very
    name, and returns and caches its store when the files load. *)
Theorem listed_plain_name_loads (st : State) (d : string) (names : list string)
    (vs : FAISS) :
  list_vector_stores st = (Return names, st) →
  d ∈ names →
  plain d →
  vector_stores st !! d = None →
  (∀ dir, disk st !! d = Some dir → load_local (files dir) = Return vs) →
  load_vector_store d st =
    (Return (Some vs),
     {| vector_stores := <[d := vs]> (vector_stores st); disk := disk st |}).
Proof.
  intros Hlist Hin Hplain Hc Hload.
  destruct (list_vector_stores_spec st) as (names' & Hl & Hn).
  assert (names' = names) as -> by congruence.
  apply Hn in Hin as [_ [dir Hdir]].
  apply (load_vector_store_from_disk st d dir vs); [done| |by apply Hload].
  by rewrite PathlibFacts.stem_plain.
Qed.

(** X11: the directory an ingestion writes for [base.ext] is [base], for a
    base that is not empty and has no slash and a suffix that is not empty
    and has neither dot nor slash: the suffix is dropped whatever its
    letters, dots inside the base are kept. *)
Theorem ingest_writes_directory_of_base (st st1 : State)
    (text base ext : string) (md : option (gmap string value)) (vs : FAISS) :
  base ≠ "" → ¬ contains "/" base →
  ext ≠ "" → ¬ contains "." ext → ¬ contains "/" ext →
  create_vector_store_from_text text (base +:+ "." +:+ ext) md st =
    (Return vs, st1) →
  disk st1 !! base = Some {| files := save_local vs; writable := true |} ∧
  ∀ k, k ≠ base → disk st1 !! k = disk st !! k.
Proof.
  intros Hb Hbs He Hed Hes Hcreate.
  destruct (create_vector_store_from_text_returns _ _ _ _ _ _ Hcreate)
    as (chunks & _ & _ & ->).
  simpl. rewrite PathlibFacts.stem_suffix by done. split.
  - apply lookup_insert_eq.
  - intros k Hk. by rewrite lookup_insert_ne.
Qed.

(** X12: a directory part in front of a file name plays no role: for a file
    name [f] with a final component, [load_vector_store] on [dir/f] and on
    [f], neither in the dictionary, read the same directory and give the same
    answer. *)
Theorem directory_part_is_ignored (st : State) (dir f : string) :
  Pathlib.name f ≠ "" →
  vector_stores st !! f = None →
  vector_stores st !! (dir +:+ "/" +:+ f) = None →
  Pathlib.stem (dir +:+ "/" +:+ f) = Pathlib.stem f ∧
  (load_vector_store (dir +:+ "/" +:+ f) st).1 = (load_vector_store f st).1.
Proof.
  intros Hname Hc Hc'.
  pose proof (PathlibFacts.stem_join dir f Hname) as Hstem.
  split; [done|].
  destruct (disk st !! Pathlib.stem f) as [d|] eqn:Hd.
  - destruct (load_local (files d)) as [vs|e] eqn:Hl.
    + rewrite (load_vector_store_from_disk st f d vs) by done.
      by rewrite (load_vector_store_from_disk st _ d vs) by (by rewrite ?Hstem).
    + rewrite (load_vector_store_unreadable st f d e) by done.
      by rewrite (load_vector_store_unreadable st _ d e) by (by rewrite ?Hstem).
  - rewrite (load_vector_store_absent st f) by done.
    by rewrite (load_vector_store_absent st _) by (by rewrite ?Hstem).
Qed.

End ServiceComposition.

(** ** The composed methods, run on the instance *)

Module FixtureRuns.
Import Fixture Names.

Lemma report_plain : plain "report".
Proof.
  unfold plain, contains. simpl. split_and!; [done|..];
    intros H; repeat (apply elem_of_cons in H as [H|H]; [discriminate H|]);
    by apply elem_of_nil in H.
Qed.

Lemma pdf_no_dot_no_slash : ¬ contains "." "pdf" ∧ ¬ contains "/" "pdf".
Proof.
  unfold contains. simpl. split;
    intros H; repeat (apply elem_of_cons in H as [H|H]; [discriminate H|]);
    by apply elem_of_nil in H.
Qed.

Lemma ingest_fox_again :
  create_vector_store_from_text fox "report.pdf" None empty =
    (Return report_store, with_report).
Proof. reflexivity. Qed.

Lemma delete_txt :
  delete_vector_store "report.txt" with_both = (Return true, after_delete_txt).
Proof. reflexivity. Qed.


Lemma delete_keeps_same_stem_alias_witness :
  "report.pdf" ≠ "report.txt" ∧
  Pathlib.stem "report.pdf" = Pathlib.stem "report.txt" ∧
  vector_stores with_both !! "report.pdf" = Some report_store ∧
  delete_vector_store "report.txt" with_both = (Return true, after_delete_txt) ∧
  disk after_delete_txt !! Pathlib.stem "report.pdf" = None ∧
  load_vector_store "report.pdf" after_delete_txt =
    (Return (Some report_store), after_delete_txt).
Proof.
  assert (H1 : "report.pdf" ≠ "report.txt") by discriminate.
  assert (H3 : vector_stores with_both !! "report.pdf" = Some report_store)
    by reflexivity.
  split; [exact H1|]. split; [reflexivity|]. split; [exact H3|].
  split; [exact delete_txt|].
  exact (delete_keeps_same_stem_alias with_both after_delete_txt
           "report.txt" "report.pdf" report_store H1 eq_refl H3 delete_txt).
Defined.

Lemma report_entry_name (ext : string) :
  Pathlib.stem ("report." +:+ ext) = "report" →
  entry_name (Pathlib.stem ("report." +:+ ext)).
Proof. intros ->. unfold entry_name. split_and!; discriminate. Qed.

Lemma ingested_document_is_listed_witness :
  entry_name (Pathlib.stem "report.pdf") ∧
  create_vector_store_from_text fox "report.pdf" None empty =
    (Return report_store, with_report) ∧
  ∃ names names1,
    list_vector_stores empty = (Return names, empty) ∧
    list_vector_stores with_report = (Return names1, with_report) ∧
    ∀ x, x ∈ names1 ↔ x = Pathlib.stem "report.pdf" ∨ x ∈ names.
Proof.
  split; [exact (report_entry_name "pdf" eq_refl)|].
  split; [exact ingest_fox_again|].
  exact (ingested_document_is_listed empty with_report fox "report.pdf" None
           report_store (report_entry_name "pdf" eq_refl) ingest_fox_again).
Defined.

Lemma deleted_document_is_not_listed_witness :
  entry_name (Pathlib.stem "report.txt") ∧
  delete_vector_store "report.txt" with_both = (Return true, after_delete_txt) ∧
  ∃ names names1,
    list_vector_stores with_both = (Return names, with_both) ∧
    list_vector_stores after_delete_txt = (Return names1, after_delete_txt) ∧
    ∀ x, x ∈ names1 ↔ x ≠ Pathlib.stem "report.txt" ∧ x ∈ names.
Proof.
  split; [exact (report_entry_name "txt" eq_refl)|].
  split; [exact delete_txt|].
  exact (deleted_document_is_not_listed with_both after_delete_txt "report.txt"
           (report_entry_name "txt" eq_refl) delete_txt).
Defined.

Lemma report_directory_loads (dir : StoreDir) :
  disk (clear_cache with_report) !! "report" = Some dir →
  load_local (files dir) = Return report_store.
Proof.
  assert (Hd : disk (clear_cache with_report) !! "report" =
               Some {| files := save_local report_store; writable := true |})
    by reflexivity.
  rewrite Hd. intros H. inversion H. reflexivity.
Qed.

Lemma listed_plain_name_loads_witness :
  list_vector_stores (clear_cache with_report) =
    (Return ["report"], clear_cache with_report) ∧
  "report" ∈ ["report"] ∧
  plain "report" ∧
  vector_stores (clear_cache with_report) !! "report" = None ∧
  load_vector_store "report" (clear_cache with_report) =
    (Return (Some report_store),
     {| vector_stores := <["report" := report_store]>
                           (vector_stores (clear_cache with_report));
        disk := disk (clear_cache with_report) |}).
Proof.
  assert (H1 : list_vector_stores (clear_cache with_report) =
               (Return ["report"], clear_cache with_report)) by reflexivity.
  assert (H2 : "report" ∈ ["report"]) by apply list_elem_of_here.
  split; [exact H1|]. split; [exact H2|]. split; [exact report_plain|].
  split; [reflexivity|].
  exact (listed_plain_name_loads (clear_cache with_report) "report" ["report"]
           report_store H1 H2 report_plain eq_refl report_directory_loads).
Defined.

Lemma ingest_writes_directory_of_base_witness :
  "report" ≠ "" ∧ ¬ contains "/" "report" ∧
  "pdf" ≠ "" ∧ ¬ contains "." "pdf" ∧ ¬ contains "/" "pdf" ∧
  create_vector_store_from_text fox ("report" +:+ "." +:+ "pdf") None empty =
    (Return report_store, with_report) ∧
  disk with_report !! "report" =
    Some {| files := save_local report_store; writable := true |} ∧
  ∀ k, k ≠ "report" → disk with_report !! k = disk empty !! k.
Proof.
  destruct report_plain as (H1 & H2 & _).
  destruct pdf_no_dot_no_slash as [H4 H5].
  assert (H3 : "pdf" ≠ "") by discriminate.
  split; [exact H1|]. split; [exact H2|]. split; [exact H3|].
  split; [exact H4|]. split; [exact H5|]. split; [exact ingest_fox_again|].
  exact (ingest_writes_directory_of_base empty with_report fox "report" "pdf"
           None report_store H1 H2 H3 H4 H5 ingest_fox_again).
Defined.

Lemma directory_part_is_ignored_witness :
  Pathlib.name "report.pdf" ≠ "" ∧
  vector_stores (clear_cache with_report) !! "report.pdf" = None ∧
  vector_stores (clear_cache with_report) !! ("2024/q3" +:+ "/" +:+ "report.pdf") = None ∧
  Pathlib.stem ("2024/q3" +:+ "/" +:+ "report.pdf") = Pathlib.stem "report.pdf" ∧
  (load_vector_store ("2024/q3" +:+ "/" +:+ "report.pdf") (clear_cache with_report)).1 =
  (load_vector_store "report.pdf" (clear_cache with_report)).1.
Proof.
  assert (H1 : Pathlib.name "report.pdf" ≠ "") by discriminate.
  split; [exact H1|]. split; [reflexivity|]. split; [reflexivity|].
  exact (directory_part_is_ignored (clear_cache with_report) "2024/q3"
           "report.pdf" H1 eq_refl eq_refl).
Defined.

End FixtureRuns.

(** ** The upload routes *)

Section RouteFacts.
Context `{B : Backend} `{R : Runtime} `{L : Loader}.
Import Strings.
Local Open Scope list_scope.

(** One step of the loop on a chunk that is not empty. *)
Lemma write_chunks_data (chunk : list Byte.byte) (rest : list read)
    (dest_path : string) (file_size : Z) (fs : Files) :
  chunk ≠ [] →
  write_chunks (Data chunk :: rest) dest_path file_size fs =
    if MAX_FILE_SIZE <? file_size + Z.of_nat (length chunk)
    then (Raised (Http {|
            status_code := 400;
            detail := ("파일 크기가 너무 큽니다. 최대 " +:+
                      pretty (MAX_FILE_SIZE `div` (1024 * 1024)) +:+
                      "MB까지 업로드 가능합니다.")%string |}),
          delete dest_path fs)
    else write_chunks rest dest_path (file_size + Z.of_nat (length chunk))
           (alter (λ content, content ++ chunk) dest_path fs).
Proof. by destruct chunk. Qed.

(** The loop touches no other file. *)
Lemma write_chunks_other (stream : list read) (dest_path : string)
    (file_size : Z) (fs : Files) (k : string) :
  k ≠ dest_path →
  (write_chunks stream dest_path file_size fs).2 !! k = fs !! k.
Proof.
  intros Hk. revert file_size fs.
  induction stream as [|[chunk|msg] rest IH]; intros file_size fs; [done| |done].
  destruct (decide (chunk = [])) as [->|Hne]; [done|].
  rewrite write_chunks_data by done.
  destruct (MAX_FILE_SIZE <? _); simpl.
  - by rewrite lookup_delete_ne.
  - by rewrite IH, lookup_alter_ne.
Qed.

(** The loop, from a file that holds [file_size] bytes: it ends with the
    file holding as many bytes as it returns, within the limit unless
    nothing was added, or with the file removed and a 400. *)
Lemma write_chunks_outcome (stream : list read) (dest_path : string)
    (file_size : Z) (fs : Files) (content : list Byte.byte) :
  fs !! dest_path = Some content →
  Z.of_nat (length content) = file_size →
  match (write_chunks stream dest_path file_size fs).1 with
  | Done n =>
      ∃ written,
        (write_chunks stream dest_path file_size fs).2 !! dest_path = Some written ∧
        Z.of_nat (length written) = n ∧ (n ≤ MAX_FILE_SIZE ∨ n = file_size)
  | Raised (Http e) =>
      (write_chunks stream dest_path file_size fs).2 !! dest_path = None ∧
      status_code e = 400%nat
  | Raised (Other _) => True
  end.
Proof.
  revert file_size fs content.
  induction stream as [|[chunk|msg] rest IH]; intros file_size fs content Hfs Hlen.
  - simpl. exists content. auto.
  - destruct (decide (chunk = [])) as [->|Hne].
    { simpl. exists content. auto. }
    rewrite write_chunks_data by done.
    destruct (Z.ltb_spec MAX_FILE_SIZE (file_size + Z.of_nat (length chunk)))
      as [Hover|Hfit]; simpl.
    + split; [apply lookup_delete_eq|done].
    + specialize (IH (file_size + Z.of_nat (length chunk))
                     (alter (λ c, c ++ chunk) dest_path fs) (content ++ chunk)).
      destruct (write_chunks rest dest_path _ _) as [[n|[e|msg]] fs'] eqn:Hw;
        simpl in *; [| |done].
      * destruct IH as (written & Hw1 & Hw2 & Hw3).
        { by rewrite lookup_alter_eq, Hfs. }
        { rewrite length_app. lia. }
        exists written. split_and!; [done..|]. left. lia.
      * apply IH.
        { by rewrite lookup_alter_eq, Hfs. }
        { rewrite length_app. lia. }
  - done.
Qed.

(** The loop raises nothing but the 400 and what a read raised. *)
Lemma directory_at_open (path : string) :
  open_error path = None → directory_at path = None.
Proof. unfold directory_at. by intros ->. Qed.

Lemma with_uploads_same (w : World) : with_uploads (λ _, uploads w) w = w.
Proof. by destruct w. Qed.

(** The three ways the call ends, and what it leaves. *)
Lemma save_uploaded_file_streaming_outcome_frame (stream : list read)
    (dest_path : string) (fs : Files) :
  (∀ k, k ≠ dest_path →
     (save_uploaded_file_streaming stream dest_path fs).2 !! k = fs !! k) ∧
  match (save_uploaded_file_streaming stream dest_path fs).1 with
  | Done n =>
      ∃ written,
        (save_uploaded_file_streaming stream dest_path fs).2 !! dest_path =
          Some written ∧
        Z.of_nat (length written) = n ∧ n ≤ Z.max 0 MAX_FILE_SIZE
  | Raised (Http e) =>
      directory_at dest_path = None ∧
      (save_uploaded_file_streaming stream dest_path fs).2 !! dest_path = None ∧
      (status_code e = 400%nat ∨ status_code e = 500%nat)
  | Raised (Other msg) =>
      directory_at dest_path = Some msg ∧
      (save_uploaded_file_streaming stream dest_path fs).2 = fs
  end.
Proof.
  unfold save_uploaded_file_streaming, directory_at.
  destruct (open_error dest_path) as [[msg|msg]|] eqn:Hopen; simpl.
  { by split. }
  { split; [intros k Hk; by rewrite lookup_delete_ne|].
    split_and!; [done|apply lookup_delete_eq|by right]. }
  pose proof (write_chunks_outcome stream dest_path 0 (<[dest_path := []]> fs) [])
    as Hout.
  pose proof (λ k, write_chunks_other stream dest_path 0 (<[dest_path := []]> fs) k)
    as Hother.
  destruct (write_chunks stream dest_path 0 _) as [[n|[e|msg]] fs'] eqn:Hw;
    simpl in *.
  - split; [intros k Hk; by rewrite Hother, lookup_insert_ne|].
    destruct Hout as (written & H1 & H2 & H3); [apply lookup_insert_eq|done|].
    exists written. split_and!; [done..|]. lia.
  - split; [intros k Hk; by rewrite Hother, lookup_insert_ne|].
    destruct Hout as [H1 H2]; [apply lookup_insert_eq|done|]. auto.
  - split; [intros k Hk; by rewrite lookup_delete_ne, Hother, lookup_insert_ne|].
    split_and!; [done|apply lookup_delete_eq|by right].
Qed.

Lemma write_chunks_complete (chunks : list (list Byte.byte)) (rest : list read)
    (dest_path : string) (content : list Byte.byte) (fs : Files) :
  Forall (λ c, c ≠ []) chunks →
  (rest = [] ∨ ∃ tl, rest = Data [] :: tl) →
  Z.of_nat (length (content ++ concat chunks)) ≤ MAX_FILE_SIZE →
  write_chunks ((Data <$> chunks) ++ rest) dest_path
    (Z.of_nat (length content)) (<[dest_path := content]> fs) =
    (Done (Z.of_nat (length (content ++ concat chunks))),
     <[dest_path := content ++ concat chunks]> fs).
Proof.
  intros Hne Hrest. revert content.
  induction Hne as [|chunk chunks Hc Hcs IH]; intros content Hmax.
  - simpl. rewrite app_nil_r. by destruct Hrest as [->|(tl & ->)].
  - cbn [fmap list_fmap app concat] in *.
    rewrite write_chunks_data by done.
    rewrite !length_app in Hmax.
    destruct (Z.ltb_spec MAX_FILE_SIZE
                (Z.of_nat (length content) + Z.of_nat (length chunk)))
      as [?|_]; [lia|].
    rewrite alter_insert_eq, <- Nat2Z.inj_add, <- length_app.
    rewrite IH by (rewrite !length_app; lia).
    by rewrite <- !app_assoc.
Qed.

(** X15: an upload whose chunks are read without error up to its end and
    whose size does not exceed [MAX_FILE_SIZE] (the limit itself is
    accepted) is saved whole: the call returns the size, and the destination
    holds the chunks end to end, replacing whatever was there. *)
Theorem save_complete_upload (chunks : list (list Byte.byte)) (rest : list read)
    (dest_path : string) (fs : Files) :
  open_error dest_path = None →
  Forall (λ c, c ≠ []) chunks →
  (rest = [] ∨ ∃ tl, rest = Data [] :: tl) →
  Z.of_nat (length (concat chunks)) ≤ MAX_FILE_SIZE →
  save_uploaded_file_streaming ((Data <$> chunks) ++ rest) dest_path fs =
    (Done (Z.of_nat (length (concat chunks))), <[dest_path := concat chunks]> fs).
Proof.
  intros Hopen Hne Hrest Hmax. unfold save_uploaded_file_streaming.
  rewrite (directory_at_open _ Hopen), Hopen.
  pose proof (write_chunks_complete chunks rest dest_path [] fs Hne Hrest Hmax)
    as Hw.
  change (Z.of_nat (length (@nil Byte.byte))) with 0 in Hw.
  change ([] ++ concat chunks) with (concat chunks) in Hw.
  by rewrite Hw.
Qed.

Lemma write_chunks_oversized (chunks : list (list Byte.byte)) (rest : list read)
    (dest_path : string) (content : list Byte.byte) (fs : Files) :
  Forall (λ c, c ≠ []) chunks →
  MAX_FILE_SIZE < Z.of_nat (length (content ++ concat chunks)) →
  Z.of_nat (length content) ≤ MAX_FILE_SIZE →
  ∃ e, write_chunks ((Data <$> chunks) ++ rest) dest_path
         (Z.of_nat (length content)) (<[dest_path := content]> fs) =
         (Raised (Http e), delete dest_path fs) ∧
       status_code e = 400%nat.
Proof.
  intros Hne. revert content.
  induction Hne as [|chunk chunks Hc Hcs IH]; intros content Hover Hfit.
  - simpl in Hover. rewrite app_nil_r in Hover. lia.
  - cbn [fmap list_fmap app concat] in *.
    rewrite write_chunks_data by done.
    destruct (Z.ltb_spec MAX_FILE_SIZE
                (Z.of_nat (length content) + Z.of_nat (length chunk)))
      as [Hnow|Hlater].
    + eexists. split; [rewrite delete_insert_eq; reflexivity|done].
    + rewrite alter_insert_eq, <- Nat2Z.inj_add, <- length_app.
      apply IH.
      * by rewrite <- app_assoc.
      * rewrite length_app. lia.
Qed.

(** X16: with a limit that is not negative, an upload whose chunks, read
    without error, add up to more than [MAX_FILE_SIZE] is refused with a 400
    as soon as the total passes the limit, whatever comes after; no file is
    left at the destination, and a file that was there before the call is
    gone too. *)
Theorem save_oversized_upload (chunks : list (list Byte.byte)) (rest : list read)
    (dest_path : string) (fs : Files) :
  0 ≤ MAX_FILE_SIZE →
  open_error dest_path = None →
  Forall (λ c, c ≠ []) chunks →
  MAX_FILE_SIZE < Z.of_nat (length (concat chunks)) →
  ∃ e, save_uploaded_file_streaming ((Data <$> chunks) ++ rest) dest_path fs =
         (Raised (Http e), delete dest_path fs) ∧
       status_code e = 400%nat.
Proof.
  intros Hpos Hopen Hne Hover. unfold save_uploaded_file_streaming.
  rewrite (directory_at_open _ Hopen), Hopen.
  destruct (write_chunks_oversized chunks rest dest_path [] fs Hne Hover Hpos)
    as (e & Hw & He).
  change (Z.of_nat (length (@nil Byte.byte))) with 0 in Hw.
  rewrite Hw. by exists e.
Qed.

(** What the call leaves: the other files as they were. *)
Lemma save_uploaded_file_streaming_other (stream : list read)
    (dest_path : string) (fs : Files) (k : string) :
  k ≠ dest_path →
  (save_uploaded_file_streaming stream dest_path fs).2 !! k = fs !! k.
Proof.
  intros Hk.
  by apply (proj1 (save_uploaded_file_streaming_outcome_frame stream dest_path fs)).
Qed.

Lemma save_uploaded_file_streaming_delete (stream : list read)
    (dest_path : string) (fs : Files) :
  delete dest_path (save_uploaded_file_streaming stream dest_path fs).2 =
    delete dest_path fs.
Proof.
  apply map_eq. intros k. destruct (decide (k = dest_path)) as [->|Hk].
  - by rewrite !lookup_delete_eq.
  - by rewrite !lookup_delete_ne, save_uploaded_file_streaming_other.
Qed.

(** A call that returns has opened the file. *)
Lemma save_uploaded_file_streaming_done (stream : list read)
    (dest_path : string) (fs fs' : Files) (n : Z) :
  save_uploaded_file_streaming stream dest_path fs = (Done n, fs') →
  directory_at dest_path = None.
Proof.
  unfold save_uploaded_file_streaming, directory_at.
  by destruct (open_error dest_path) as [[msg|msg]|].
Qed.

(** A call that raises: the 400 or the 500 with the destination removed,
    or the exception of [os.remove] on a directory with nothing changed. *)
Lemma save_uploaded_file_streaming_raised (stream : list read)
    (dest_path : string) (fs fs' : Files) (r : raised) :
  save_uploaded_file_streaming stream dest_path fs = (Raised r, fs') →
  (directory_at dest_path = None ∧ fs' = delete dest_path fs ∧
   ∃ e, r = Http e ∧ (status_code e = 400%nat ∨ status_code e = 500%nat)) ∨
  (directory_at dest_path = Some (str_raised r) ∧ fs' = fs ∧
   r = Other (str_raised r)).
Proof.
  intros Hsave.
  pose proof (save_uploaded_file_streaming_delete stream dest_path fs) as Hdel.
  pose proof (save_uploaded_file_streaming_outcome_frame stream dest_path fs)
    as [_ Hout].
  rewrite Hsave in Hdel, Hout. simpl in Hdel, Hout.
  destruct r as [e|msg].
  - destruct Hout as (Hdir & Hnone & He). left. split_and!; [done| |by exists e].
    rewrite <- Hdel. symmetry. by apply delete_id.
  - destruct Hout as [Hdir ->]. by right.
Qed.

(** X14: after [save_uploaded_file_streaming], whatever was uploaded and
    whatever failed, no other file has changed and the call ended in one of
    three ways: it returned [n] and the file holds exactly [n] bytes, [n]
    within [MAX_FILE_SIZE] (or zero); or it raised an [HTTPException] with
    status 400 or 500 and there is no file at the destination; or a
    directory is at the destination, and then the exception that
    [os.remove] raises on it in the handler leaves the function, which has
    changed nothing. *)
Theorem save_uploaded_file_streaming_outcome (stream : list read)
    (dest_path : string) (fs : Files) :
  (∀ k, k ≠ dest_path →
     (save_uploaded_file_streaming stream dest_path fs).2 !! k = fs !! k) ∧
  match (save_uploaded_file_streaming stream dest_path fs).1 with
  | Done n =>
      ∃ written,
        (save_uploaded_file_streaming stream dest_path fs).2 !! dest_path =
          Some written ∧
        Z.of_nat (length written) = n ∧ n ≤ Z.max 0 MAX_FILE_SIZE
  | Raised (Http e) =>
      directory_at dest_path = None ∧
      (save_uploaded_file_streaming stream dest_path fs).2 !! dest_path = None ∧
      (status_code e = 400%nat ∨ status_code e = 500%nat)
  | Raised (Other msg) =>
      directory_at dest_path = Some msg ∧
      (save_uploaded_file_streaming stream dest_path fs).2 = fs
  end.
Proof. apply save_uploaded_file_streaming_outcome_frame. Qed.

(** The three loader calls change nothing of what the routes hold. *)
Lemma process_upload_state (temp_file_path filename : string) (w : World) :
  (process_upload temp_file_path filename w).2 = w.
Proof.
  unfold process_upload, hbind, hlift.
  destruct get_pdf_loader; [|done].
  destruct (loader_upload_pdf _ _ _); [|done]. done.
Qed.

(** A method of the singleton leaves the uploaded files alone. *)
Lemma call_service_uploads {A} (m : M State A) (w : World) :
  uploads (call_service m w).2 = uploads w.
Proof.
  unfold call_service. destruct (instance w); [|done]. by destruct (m _).
Qed.

(** The inner [try] of the upload route always returns, and leaves the
    uploaded files alone. *)
Lemma build_vector_db_returns (processed_file : GeminiFile)
    (filename temp_file_path : string) (w : World) :
  ∃ info w',
    build_vector_db processed_file filename temp_file_path w = (Done info, w') ∧
    uploads w' = uploads w.
Proof.
  unfold build_vector_db, htry, hbind.
  destruct (get_vector_db_service w) as [[[]|r] w1] eqn:H1.
  2:{ eexists _, _. split; [done|].
      unfold get_vector_db_service in H1.
      destruct (instance w); [by inversion H1|].
      destruct OPENAI_API_KEY as [[|? ?]|]; by inversion H1. }
  assert (Hu1 : uploads w1 = uploads w).
  { unfold get_vector_db_service in H1.
    destruct (instance w); [by inversion H1|].
    destruct OPENAI_API_KEY as [[|? ?]|]; by inversion H1. }
  destruct (loader_extract_full_text (uploads w1) processed_file temp_file_path)
    as [full_text|r]; [|by eexists _, _].
  pose proof (call_service_uploads
                (create_vector_store_from_text full_text filename
                   (Some (upload_metadata processed_file filename))) w1) as Hu2.
  destruct (call_service (create_vector_store_from_text _ _ _) w1)
    as [[vs|r] w2]; simpl in Hu2; [|eexists _, _; split; [done|congruence]].
  pose proof (call_service_uploads (get_store_info filename) w2) as Hu3.
  destruct (call_service (get_store_info filename) w2) as [[[info|]|r] w3];
    simpl in Hu3; eexists _, _; (split; [done|congruence]).
Qed.

Lemma upload_failed_file (temp_file_path : string) (r : raised) (w : World) :
  directory_at temp_file_path = None →
  upload_failed temp_file_path r w =
    (Raised (Http {| status_code := 500;
                     detail := ("파일 업로드 중 오류 발생: " +:+
                                str_raised r)%string |}),
     with_uploads (delete temp_file_path) w).
Proof.
  intros Hdir. unfold upload_failed, hbind, remove_if_exists. by rewrite Hdir.
Qed.

Lemma upload_failed_directory (temp_file_path : string) (r : raised) (w : World)
    (msg : string) :
  directory_at temp_file_path = Some msg →
  upload_failed temp_file_path r w = (Raised (Other msg), w).
Proof.
  intros Hdir. unfold upload_failed, hbind, remove_if_exists. by rewrite Hdir.
Qed.

(** The upload route on an accepted name, step by step. *)
Lemma upload_pdf_file_accepted (filename : string) (stream : list read)
    (w : World) :
  is_pdf_name filename = true →
  let temp_file_path := path_join UPLOAD_DIR filename in
  let fail := upload_failed temp_file_path in
  upload_pdf_file filename stream w =
    match save_uploaded_file_streaming stream temp_file_path (uploads w) with
    | (Raised r, fs') => fail r (with_uploads (λ _, fs') w)
    | (Done _, fs') =>
        let w1 := with_uploads (λ _, fs') w in
        match get_pdf_loader with
        | Raised r => fail r w1
        | Done _ =>
            match loader_upload_pdf fs' temp_file_path filename with
            | Raised r => fail r w1
            | Done uploaded_file =>
                match loader_wait_for_file_processing uploaded_file with
                | Raised r => fail r w1
                | Done processed_file =>
                    match loader_get_file_info processed_file with
                    | Raised r => fail r w1
                    | Done file_info =>
                        match build_vector_db processed_file filename
                                temp_file_path w1 with
                        | (Raised r, w2) => fail r w2
                        | (Done info, w2) =>
                            (Done {| upload_success := true;
                                     upload_file_info := file_info;
                                     upload_vector_db_info := info;
                                     upload_message :=
                                       "PDF 파일 업로드, 처리 및 FAISS 벡터 DB 생성 완료" |},
                             w2)
                        end
                    end
                end
            end
        end
    end.
Proof.
  intros Hpdf. unfold upload_pdf_file, process_upload. rewrite Hpdf.
  unfold upload_failed, htry, hbind, save_upload, hlift, hret. simpl.
  destruct (save_uploaded_file_streaming _ _ _) as [[n|r] fs']; [|done].
  destruct get_pdf_loader; [|done]. simpl.
  destruct (loader_upload_pdf _ _ _); [|done].
  destruct (loader_wait_for_file_processing _); [|done].
  destruct (loader_get_file_info _); [|done].
  by destruct (build_vector_db _ _ _ _) as [[info|r] w2].
Qed.

(** X17: what [upload_pdf_file] raises.  It is a 400 when the file name
    does not end with [.pdf] (any case), and nothing has been touched.
    Otherwise, unless a directory is at the path of the temporary file, it
    is a 500, the temporary file is not there afterwards (nor a file that
    was at that path before), and nothing of the vector service has
    changed.  When a directory is at that path, the exception that
    [os.remove] raises on it in the handler leaves the route: what is
    raised is not an [HTTPException], and nothing has changed. *)
Theorem upload_pdf_file_raises (filename : string) (stream : list read)
    (w w' : World) (r : raised) :
  upload_pdf_file filename stream w = (Raised r, w') →
  (is_pdf_name filename = false ∧ r = not_a_pdf ∧ w' = w) ∨
  (is_pdf_name filename = true ∧
   directory_at (path_join UPLOAD_DIR filename) = None ∧
   (∃ e, r = Http e ∧ status_code e = 500%nat) ∧
   w' = with_uploads (delete (path_join UPLOAD_DIR filename)) w) ∨
  (is_pdf_name filename = true ∧
   ∃ msg, directory_at (path_join UPLOAD_DIR filename) = Some msg ∧
          r = Other msg ∧ w' = w).
Proof.
  destruct (is_pdf_name filename) eqn:Hpdf.
  2:{ unfold upload_pdf_file. rewrite Hpdf. simpl. unfold hraise.
      intros H. inversion H. by left. }
  rewrite (upload_pdf_file_accepted filename stream w Hpdf). cbv zeta.
  intros H. right.
  pose proof (save_uploaded_file_streaming_delete stream
                (path_join UPLOAD_DIR filename) (uploads w)) as Hdel.
  assert (Hfail : ∀ r0 fs',
    directory_at (path_join UPLOAD_DIR filename) = None →
    delete (path_join UPLOAD_DIR filename) fs' =
      delete (path_join UPLOAD_DIR filename) (uploads w) →
    upload_failed (path_join UPLOAD_DIR filename) r0
      (with_uploads (λ _, fs') w) = (@Raised UploadResponse r, w') →
    directory_at (path_join UPLOAD_DIR filename) = None ∧
    (∃ e, r = Http e ∧ status_code e = 500%nat) ∧
    w' = with_uploads (delete (path_join UPLOAD_DIR filename)) w).
  { intros r0 fs' Hdir Hfs Heq. rewrite upload_failed_file in Heq by done.
    inversion Heq; subst. split_and!; [done|by eexists|].
    unfold with_uploads. simpl. by rewrite Hfs. }
  destruct (save_uploaded_file_streaming _ _ _) as [[n|r0] fs'] eqn:Hsave;
    simpl in Hdel.
  2:{ destruct (save_uploaded_file_streaming_raised _ _ _ _ _ Hsave)
        as [(Hdir & -> & _)|(Hdir & -> & _)].
      - left. split; [done|]. by eapply Hfail.
      - right. split; [done|]. exists (str_raised r0).
        rewrite (upload_failed_directory _ _ _ _ Hdir) in H.
        rewrite with_uploads_same in H. inversion H; subst. done. }
  pose proof (save_uploaded_file_streaming_done _ _ _ _ _ Hsave) as Hdir.
  left. split; [done|].
  destruct get_pdf_loader; [|by eapply Hfail].
  destruct (loader_upload_pdf _ _ _); [|by eapply Hfail].
  destruct (loader_wait_for_file_processing _); [|by eapply Hfail].
  destruct (loader_get_file_info _) as [fi|]; [|by eapply Hfail].
  match type of H with
  | context [build_vector_db ?p ?f ?t ?w1] =>
      destruct (build_vector_db_returns p f t w1) as (info & w2 & Hb & _);
      rewrite Hb in H
  end.
  discriminate H.
Qed.

(** X18: with a limit that is not negative, an upload over [MAX_FILE_SIZE]
    sent to [upload_pdf_file] under an accepted name does not end as the 400
    of the size check: the route catches that exception and raises a 500
    whose detail quotes it; the temporary file is not there afterwards. *)
Theorem oversized_upload_is_a_500 (filename : string)
    (chunks : list (list Byte.byte)) (rest : list read) (w : World) :
  is_pdf_name filename = true →
  0 ≤ MAX_FILE_SIZE →
  open_error (path_join UPLOAD_DIR filename) = None →
  Forall (λ c, c ≠ []) chunks →
  MAX_FILE_SIZE < Z.of_nat (length (concat chunks)) →
  ∃ too_large,
    status_code too_large = 400%nat ∧
    upload_pdf_file filename ((Data <$> chunks) ++ rest) w =
      (Raised (Http {| status_code := 500;
                       detail := ("파일 업로드 중 오류 발생: " +:+
                                  str_http too_large)%string |}),
       with_uploads (delete (path_join UPLOAD_DIR filename)) w).
Proof.
  intros Hpdf Hpos Hopen Hne Hover.
  destruct (write_chunks_oversized chunks rest (path_join UPLOAD_DIR filename)
              [] (uploads w) Hne Hover Hpos) as (e & Hw & He).
  change (Z.of_nat (length (@nil Byte.byte))) with 0 in Hw.
  exists e. split; [done|].
  rewrite (upload_pdf_file_accepted filename _ w Hpdf). cbv zeta.
  unfold save_uploaded_file_streaming. rewrite Hopen, Hw. simpl.
  rewrite upload_failed_file by (by apply directory_at_open).
  unfold with_uploads. simpl. by rewrite delete_delete_eq.
Qed.

(** X19: once the upload is saved and the loader has uploaded it, waited
    for it and described it, [upload_pdf_file] returns success whatever
    happens to the text extraction and to the vector store: a failure there
    only shows in [vector_db_info].  The saved file stays where it is; and
    unless the stem of the file name is [".."], for which the index files
    go into [UPLOAD_DIR] itself, the files of the routes are exactly those
    the save left. *)
Theorem upload_succeeds_whatever_the_vector_db (filename : string)
    (stream : list read) (w : World) (n : Z) (fs' : Files)
    (uploaded_file processed_file : GeminiFile) (file_info : FileInfo) :
  is_pdf_name filename = true →
  save_uploaded_file_streaming stream (path_join UPLOAD_DIR filename) (uploads w) =
    (Done n, fs') →
  get_pdf_loader = Done tt →
  loader_upload_pdf fs' (path_join UPLOAD_DIR filename) filename =
    Done uploaded_file →
  loader_wait_for_file_processing uploaded_file = Done processed_file →
  loader_get_file_info processed_file = Done file_info →
  ∃ info w',
    upload_pdf_file filename stream w =
      (Done {| upload_success := true;
               upload_file_info := file_info;
               upload_vector_db_info := info;
               upload_message :=
                 "PDF 파일 업로드, 처리 및 FAISS 벡터 DB 생성 완료" |}, w') ∧
    uploads w' !! path_join UPLOAD_DIR filename =
      fs' !! path_join UPLOAD_DIR filename ∧
    (Pathlib.stem filename ≠ ".." → uploads w' = fs').
Proof.
  intros Hpdf Hsave Hloader Hup Hwait Hinfo.
  rewrite (upload_pdf_file_accepted filename stream w Hpdf). cbv zeta.
  rewrite Hsave, Hloader, Hup, Hwait, Hinfo.
  destruct (build_vector_db_returns processed_file filename
              (path_join UPLOAD_DIR filename) (with_uploads (λ _, fs') w))
    as (info & w2 & Hb & Hu).
  rewrite Hb. exists info, w2. simpl in Hu. by rewrite Hu.
Qed.

(** X20: without an API key, and before the vector service was ever
    constructed, the vector part of the upload fails with the message of
    [VectorDBService.__init__] and touches nothing; the text is not even
    extracted. *)
Theorem build_vector_db_without_api_key (processed_file : GeminiFile)
    (filename temp_file_path : string) (w : World) :
  instance w = None →
  (OPENAI_API_KEY = None ∨ OPENAI_API_KEY = Some ""%string) →
  build_vector_db processed_file filename temp_file_path w =
    (Done (Failed "OPENAI_API_KEY is required for embeddings"), w).
Proof.
  intros Hi Hkey. unfold build_vector_db, htry, hbind, get_vector_db_service.
  rewrite Hi. by destruct Hkey as [-> | ->].
Qed.

(** Every route of the shared shape cleans up. *)
Lemma extract_route_cleans_up {A C}
    (extract : Files → GeminiFile → string → outcome A)
    (respond : string → A → C) (prefix : string) :
  cleans_up (λ filename, extract_route extract (respond filename) prefix filename).
Proof.
  intros filename stream w Hpdf.
  unfold extract_route, process_upload. rewrite Hpdf.
  unfold hfinally, htry, hbind, save_upload, hlift, hret, hraise,
    remove_if_exists. simpl.
  pose proof (save_uploaded_file_streaming_delete stream
                (path_join UPLOAD_DIR filename) (uploads w)) as Hdel.
  destruct (directory_at (path_join UPLOAD_DIR filename)) as [msg|] eqn:Hdir.
  { destruct (save_uploaded_file_streaming _ _ _) as [[n|r0] fs'] eqn:Hsave.
    - pose proof (save_uploaded_file_streaming_done _ _ _ _ _ Hsave). congruence.
    - destruct (save_uploaded_file_streaming_raised _ _ _ _ _ Hsave)
        as [(Hnone & _)|(_ & -> & _)]; [congruence|].
      simpl. by rewrite with_uploads_same. }
  destruct (save_uploaded_file_streaming _ _ _) as [[n|r0] fs']; simpl in *.
  2:{ rewrite Hdel. split_and!; [done..|]. intros r' [= <-]. by eexists. }
  destruct get_pdf_loader; simpl.
  2:{ rewrite Hdel. split_and!; [done..|]. intros r' [= <-]. by eexists. }
  destruct (loader_upload_pdf _ _ _); simpl.
  2:{ rewrite Hdel. split_and!; [done..|]. intros r' [= <-]. by eexists. }
  destruct (loader_wait_for_file_processing _); simpl.
  2:{ rewrite Hdel. split_and!; [done..|]. intros r' [= <-]. by eexists. }
  destruct (extract _ _ _); simpl.
  2:{ rewrite Hdel. split_and!; [done..|]. intros r' [= <-]. by eexists. }
  rewrite Hdel. split_and!; [done..|]. intros r' [=].
Qed.

(** X21: the four extraction routes ([extract_text_from_pdf],
    [extract_preview_from_pdf], [extract_structured_content],
    [extract_text_by_pages]), given a name that ends with [.pdf].  Unless a
    directory is at the path of the temporary file, they never leave that
    file behind: after the call, returned or raised, there is no file at
    its path (a file that was there before is gone too), no other file and
    nothing of the vector service has changed; and what they raise is a
    500, the 400 of the size check included.  When a directory is at that
    path, [os.remove] raises in the [finally] block: that exception, which
    is not an [HTTPException], takes the place of the 500, and nothing has
    changed. *)
Theorem extraction_routes_clean_up :
  cleans_up extract_text_from_pdf ∧
  cleans_up extract_preview_from_pdf ∧
  cleans_up extract_structured_content ∧
  cleans_up extract_text_by_pages.
Proof.
  split_and!.
  - apply (extract_route_cleans_up loader_extract_full_text
             (λ filename t, {| text_success := true; extracted_text := t;
                               text_file_name := filename;
                               text_length := str_len t |})).
  - apply (extract_route_cleans_up
             (λ _ processed_file _, loader_extract_text_preview processed_file)
             (λ filename p, {| preview_success := true; preview := p;
                               preview_file_name := filename |})).
  - apply (extract_route_cleans_up
             (λ _ processed_file _, loader_extract_structured_content processed_file)
             (λ filename c, {| structured_success := true; content := c;
                               structured_file_name := filename |})).
  - apply (extract_route_cleans_up
             (λ _ processed_file _, loader_extract_text_by_pages processed_file)
             (λ filename ps, {| pages_success := true; pages := ps;
                                pages_file_name := filename;
                                total_pages := length ps |})).
Qed.

Lemma find_first {A} (P : A → bool) (before after : list A) (x : A) :
  Forall (λ y, P y = false) before → P x = true →
  List.find P (before ++ x :: after) = Some x.
Proof.
  intros Hb Hx. induction Hb as [|y before Hy Hb IH]; simpl.
  - by rewrite Hx.
  - by rewrite Hy.
Qed.

Lemma find_none {A} (P : A → bool) (l : list A) :
  Forall (λ y, P y = false) l → List.find P l = None.
Proof. induction 1 as [|y l Hy Hl IH]; simpl; [done|]. by rewrite Hy. Qed.

(** X22: [delete_single_file], the loader being available: when no uploaded
    file has the name, it raises a 404 and the loader is not asked to delete
    anything; otherwise it is the first uploaded file of that name that the
    loader is asked to delete, the answer names its display name, an
    [HTTPException] of the loader is raised unchanged and any other
    exception becomes a 500. *)
Theorem delete_single_file_first_match (uploaded_files : list GeminiFile)
    (file_name : string) :
  get_pdf_loader = Done tt →
  (Forall (λ file, gemini_name file ≠ file_name) uploaded_files →
   delete_single_file uploaded_files file_name =
     Raised (Http {| status_code := 404;
                     detail := ("파일을 찾을 수 없습니다: " +:+ file_name)%string |})) ∧
  (∀ before file after,
     uploaded_files = before ++ file :: after →
     Forall (λ file, gemini_name file ≠ file_name) before →
     gemini_name file = file_name →
     delete_single_file uploaded_files file_name =
       match loader_delete_file file with
       | Done _ =>
           Done {| delete_success := true;
                   delete_message := ("파일이 삭제되었습니다: " +:+
                                      gemini_display_name file)%string |}
       | Raised (Http e) => Raised (Http e)
       | Raised (Other msg) =>
           Raised (Http {| status_code := 500;
                           detail := ("파일 삭제 중 오류 발생: " +:+ msg)%string |})
       end).
Proof.
  intros Hloader. unfold delete_single_file. rewrite Hloader. split.
  - intros Hnone. rewrite find_none; [done|].
    eapply Forall_impl; [exact Hnone|]. intros file Hf.
    by apply bool_decide_eq_false_2.
  - intros before file after -> Hbefore Hfile.
    rewrite (find_first _ before after file).
    + by destruct (loader_delete_file file) as [[]|[e|msg]].
    + eapply Forall_impl; [exact Hbefore|]. intros f Hf.
      by apply bool_decide_eq_false_2.
    + by apply bool_decide_eq_true_2.
Qed.

(** The service is there once [get_vector_db_service] has returned. *)
Lemma get_vector_db_service_done (w w1 : World) :
  get_vector_db_service w = (Done tt, w1) →
  uploads w1 = uploads w ∧ store_dirs w1 = store_dirs w ∧
  ∃ cache, instance w1 = Some cache.
Proof.
  unfold get_vector_db_service.
  destruct (instance w) as [cache|] eqn:Hi.
  - intros [= <-]. eauto.
  - destruct OPENAI_API_KEY as [[|? ?]|]; intros [= <-]; simpl; eauto.
Qed.

(** X23: when the vector part of the upload route answers with the
    information of a store, that store is in the dictionary of the service
    under the file name, and it is the one the store builder made of the
    documents of the extracted text: for the [i]-th chunk a document with
    exactly five metadata keys, the ordinal [i], the number of chunks, the
    file name as source and as display name, and the URI of the processed
    file.  The two keys the route adds never replace one of the three the
    service sets. *)
Theorem upload_documents_metadata (processed_file : GeminiFile)
    (filename temp_file_path : string) (w w' : World) (info : StoreInfo) :
  build_vector_db processed_file filename temp_file_path w =
    (Done (Info info), w') →
  ∃ full_text chunks vs cache,
    loader_extract_full_text (uploads w) processed_file temp_file_path =
      Done full_text ∧
    split_text chunk_size chunk_overlap separators full_text = Return chunks ∧
    from_documents
      (make_documents chunks filename
         (Some (upload_metadata processed_file filename))) = Return vs ∧
    instance w' = Some cache ∧ cache !! filename = Some vs ∧
    info = {| info_file_name := filename;
              total_chunks := index_ntotal vs;
              embedding_dimension := index_d vs |} ∧
    ∀ (i : nat) chunk, chunks !! i = Some chunk →
      make_documents chunks filename
        (Some (upload_metadata processed_file filename)) !! i =
        Some {| page_content := chunk;
                metadata :=
                  <["display_name" := VStr filename]>
                    (<["gemini_file_uri" := gemini_uri processed_file]>
                       (<["total_chunks" := VInt (Z.of_nat (length chunks))]>
                          (<["chunk_index" := VInt (Z.of_nat i)]>
                             {["source" := VStr filename]}))) |}.
Proof.
  unfold build_vector_db, htry, hbind.
  destruct (get_vector_db_service w) as [[[]|r] w1] eqn:H1; [|by intros [=]].
  destruct (get_vector_db_service_done _ _ H1) as (Hu & Hd & cache0 & Hi).
  rewrite Hu.
  destruct (loader_extract_full_text (uploads w) processed_file temp_file_path)
    as [full_text|r]; [|by intros [=]].
  unfold call_service at 1. rewrite Hi.
  destruct (create_vector_store_from_text full_text filename _ _)
    as [[vs|e] st1] eqn:Hcreate; [|by intros [=]].
  destruct (create_vector_store_from_text_returns _ _ _ _ _ _ Hcreate)
    as (chunks & Hsplit & Hbuild & ->).
  unfold call_service. cbn [instance vector_stores disk ingested].
  unfold get_store_info, bind.
  rewrite (load_vector_store_cached _ filename vs)
    by (simpl; by rewrite lookup_insert_eq).
  unfold ret, hret. intros [= <- <-].
  exists full_text, chunks, vs. eexists.
  split_and!; [done|done|done|reflexivity|by rewrite lookup_insert_eq|done|].
  intros i chunk Hchunk. rewrite make_documents_lookup, Hchunk. reflexivity.
Qed.

Lemma list_ascii_of_lower (s : string) :
  list_ascii_of_string (lower s) = lower_ascii <$> list_ascii_of_string s.
Proof. induction s as [|c s IH]; simpl; [done|]. by rewrite IH. Qed.

(** Only the dot lowers to the dot. *)
Lemma lower_ascii_dot (c : ascii) : lower_ascii c = "."%char → c = "."%char.
Proof.
  destruct c as [[] [] [] [] [] [] [] []]; vm_compute; intros H;
    first [reflexivity | discriminate H].
Qed.

Lemma string_of_list_ascii_app (a b : list ascii) :
  string_of_list_ascii (a ++ b) =
    (string_of_list_ascii a +:+ string_of_list_ascii b)%string.
Proof. induction a as [|c a IH]; simpl; [done|]. by rewrite IH. Qed.

(** A name that ends with [.pdf] in any case is a base followed by a dot and
    three characters that are neither dots nor slashes. *)
Lemma is_pdf_name_split (filename : string) :
  is_pdf_name filename = true →
  ∃ base c1 c2 c3,
    filename = (base +:+ "." +:+ String c1 (String c2 (String c3 "")))%string ∧
    Forall (λ c, c ≠ "."%char ∧ c ≠ "/"%char) [c1; c2; c3].
Proof.
  unfold is_pdf_name, endswith. intros H. apply bool_decide_eq_true in H.
  destruct H as [k Hk]. rewrite list_ascii_of_lower in Hk.
  apply fmap_app_inv in Hk as (l1 & l2 & _ & Hl2 & Hl).
  destruct l2 as [|c0 [|c1 [|c2 [|c3 [|? ?]]]]]; try discriminate Hl2.
  simpl in Hl2. injection Hl2 as H0 H1 H2 H3.
  symmetry in H0. apply lower_ascii_dot in H0 as ->.
  exists (string_of_list_ascii l1), c1, c2, c3. split.
  - rewrite <- (string_of_list_ascii_of_string filename), Hl.
    by rewrite string_of_list_ascii_app.
  - repeat constructor; intros ->; vm_compute in H1, H2, H3; congruence.
Qed.

(** X24: for a file name the upload route accepts (it ends with [.pdf] in
    any case), that has no slash and more than four characters, the store
    directory is the file name without its last four characters: an
    ingestion under that name writes that directory, so [a.pdf] and [a.PDF]
    share one. *)
Theorem accepted_name_directory (filename : string) (st st1 : State)
    (text : string) (md : option (gmap string value)) (vs : FAISS) :
  is_pdf_name filename = true →
  ¬ Names.contains "/" filename →
  (4 < String.length filename)%nat →
  create_vector_store_from_text text filename md st = (Return vs, st1) →
  Pathlib.stem filename =
    String.substring 0 (String.length filename - 4) filename ∧
  disk st1 !! String.substring 0 (String.length filename - 4) filename =
    Some {| files := save_local vs; writable := true |}.
Proof.
  intros Hpdf Hslash Hlen Hcreate.
  destruct (is_pdf_name_split filename Hpdf) as (base & c1 & c2 & c3 & -> & Hext).
  apply Forall_cons in Hext as [[Hd1 Hs1] Hext].
  apply Forall_cons in Hext as [[Hd2 Hs2] Hext].
  apply Forall_cons in Hext as [[Hd3 Hs3] _].
  rewrite !PathlibFacts.length_append in *. cbn [String.length] in *.
  rewrite PathlibFacts.contains_append in Hslash.
  assert (Hstem : Pathlib.stem
            (base +:+ "." +:+ String c1 (String c2 (String c3 ""))) = base).
  { apply PathlibFacts.stem_suffix.
    - intros ->. simpl in Hlen. lia.
    - tauto.
    - done.
    - rewrite !PathlibFacts.contains_String.
      intros [?|[?|[?|H]]]; [congruence..|by apply PathlibFacts.contains_empty in H].
    - rewrite !PathlibFacts.contains_String.
      intros [?|[?|[?|H]]]; [congruence..|by apply PathlibFacts.contains_empty in H]. }
  replace (String.length base + (1 + 3) - 4)%nat with (String.length base) by lia.
  rewrite PathlibFacts.substring_prefix. split; [done|].
  destruct (create_vector_store_from_text_returns _ _ _ _ _ _ Hcreate)
    as (chunks & _ & _ & ->).
  simpl. rewrite Hstem. apply lookup_insert_eq.
Qed.

End RouteFacts.

(** ** The routes, run on the instance *)

Module RouteRuns.
Import Fixture RouteFixture Strings.
Local Open Scope list_scope.

Lemma small_upload_nonempty : Forall (λ c : list Byte.byte, c ≠ []) small_upload.
Proof. repeat constructor; discriminate. Qed.

Lemma large_upload_nonempty : Forall (λ c : list Byte.byte, c ≠ []) large_upload.
Proof. repeat constructor; discriminate. Qed.

Lemma save_complete_upload_witness :
  open_error "uploads/report.pdf" = None ∧
  Z.of_nat (length (concat small_upload)) ≤ MAX_FILE_SIZE ∧
  save_uploaded_file_streaming ((Data <$> small_upload) ++ []) "uploads/report.pdf" ∅ =
    (Done (Z.of_nat (length (concat small_upload))),
     <["uploads/report.pdf" := concat small_upload]> ∅).
Proof.
  assert (H : Z.of_nat (length (concat small_upload)) ≤ MAX_FILE_SIZE)
    by (simpl; lia).
  split; [reflexivity|]. split; [exact H|].
  exact (save_complete_upload small_upload [] "uploads/report.pdf" ∅
           eq_refl small_upload_nonempty (or_introl eq_refl) H).
Defined.

Lemma save_oversized_upload_witness :
  0 ≤ MAX_FILE_SIZE ∧
  MAX_FILE_SIZE < Z.of_nat (length (concat large_upload)) ∧
  ∃ e, save_uploaded_file_streaming ((Data <$> large_upload) ++ [])
         "uploads/report.pdf" {["uploads/report.pdf" := [Byte.x00]]} =
         (Raised (Http e), delete "uploads/report.pdf"
                             {["uploads/report.pdf" := [Byte.x00]]}) ∧
       status_code e = 400%nat.
Proof.
  assert (H0 : 0 ≤ MAX_FILE_SIZE) by (simpl; lia).
  assert (H : MAX_FILE_SIZE < Z.of_nat (length (concat large_upload)))
    by (simpl; lia).
  split; [exact H0|]. split; [exact H|].
  exact (save_oversized_upload large_upload [] "uploads/report.pdf" _
           H0 eq_refl large_upload_nonempty H).
Defined.

Lemma upload_into_store_directory :
  upload_pdf_file "vector_stores/a.pdf" (Data <$> small_upload) fresh =
    (Raised (Other is_a_directory), fresh).
Proof. reflexivity. Qed.

Lemma upload_too_large :
  upload_pdf_file "big.PDF" (Data <$> large_upload) fresh =
    (Raised (Http {| status_code := 500;
                     detail := "파일 업로드 중 오류 발생: 400: 파일 크기가 너무 큽니다. 최대 0MB까지 업로드 가능합니다." |}),
     with_uploads (delete "uploads/big.PDF") fresh).
Proof. reflexivity. Qed.

Lemma upload_pdf_file_raises_witness :
  upload_pdf_file "vector_stores/a.pdf" (Data <$> small_upload) fresh =
    (Raised (Other is_a_directory), fresh) ∧
  directory_at (path_join UPLOAD_DIR "vector_stores/a.pdf") = Some is_a_directory ∧
  upload_pdf_file "big.PDF" (Data <$> large_upload) fresh =
    (Raised (Http {| status_code := 500;
                     detail := "파일 업로드 중 오류 발생: 400: 파일 크기가 너무 큽니다. 최대 0MB까지 업로드 가능합니다." |}),
     with_uploads (delete "uploads/big.PDF") fresh) ∧
  directory_at (path_join UPLOAD_DIR "big.PDF") = None ∧
  ((is_pdf_name "vector_stores/a.pdf" = false ∧
    Other is_a_directory = not_a_pdf ∧ fresh = fresh) ∨
   (is_pdf_name "vector_stores/a.pdf" = true ∧
    directory_at (path_join UPLOAD_DIR "vector_stores/a.pdf") = None ∧
    (∃ e, Other is_a_directory = Http e ∧ status_code e = 500%nat) ∧
    fresh = with_uploads (delete (path_join UPLOAD_DIR "vector_stores/a.pdf")) fresh) ∨
   (is_pdf_name "vector_stores/a.pdf" = true ∧
    ∃ msg, directory_at (path_join UPLOAD_DIR "vector_stores/a.pdf") = Some msg ∧
           Other is_a_directory = Other msg ∧ fresh = fresh)).
Proof.
  split; [exact upload_into_store_directory|]. split; [reflexivity|].
  split; [exact upload_too_large|]. split; [reflexivity|].
  exact (upload_pdf_file_raises "vector_stores/a.pdf" (Data <$> small_upload)
           fresh fresh (Other is_a_directory) upload_into_store_directory).
Defined.

Lemma oversized_upload_is_a_500_witness :
  is_pdf_name "big.PDF" = true ∧
  0 ≤ MAX_FILE_SIZE ∧
  MAX_FILE_SIZE < Z.of_nat (length (concat large_upload)) ∧
  ∃ too_large,
    status_code too_large = 400%nat ∧
    upload_pdf_file "big.PDF" ((Data <$> large_upload) ++ []) fresh =
      (Raised (Http {| status_code := 500;
                       detail := ("파일 업로드 중 오류 발생: " +:+
                                  str_http too_large)%string |}),
       with_uploads (delete (path_join UPLOAD_DIR "big.PDF")) fresh).
Proof.
  assert (H0 : 0 ≤ MAX_FILE_SIZE) by (simpl; lia).
  assert (H : MAX_FILE_SIZE < Z.of_nat (length (concat large_upload)))
    by (simpl; lia).
  split; [reflexivity|]. split; [exact H0|]. split; [exact H|].
  exact (oversized_upload_is_a_500 "big.PDF" large_upload [] fresh
           eq_refl H0 eq_refl large_upload_nonempty H).
Defined.

Lemma upload_succeeds_whatever_the_vector_db_witness :
  is_pdf_name "report.pdf" = true ∧
  save_uploaded_file_streaming (Data <$> small_upload)
    (path_join UPLOAD_DIR "report.pdf") (uploads fresh) =
    (Done 5, {["uploads/report.pdf" := concat small_upload]}) ∧
  ∃ info w',
    upload_pdf_file "report.pdf" (Data <$> small_upload) fresh =
      (Done {| upload_success := true;
               upload_file_info := "files/report.pdf";
               upload_vector_db_info := info;
               upload_message :=
                 "PDF 파일 업로드, 처리 및 FAISS 벡터 DB 생성 완료" |}, w') ∧
    uploads w' !! path_join UPLOAD_DIR "report.pdf" =
      ({["uploads/report.pdf" := concat small_upload]} : Files)
        !! path_join UPLOAD_DIR "report.pdf" ∧
    (Pathlib.stem "report.pdf" ≠ ".." →
     uploads w' = {["uploads/report.pdf" := concat small_upload]}).
Proof.
  assert (Hsave : save_uploaded_file_streaming (Data <$> small_upload)
            (path_join UPLOAD_DIR "report.pdf") (uploads fresh) =
            (Done 5, {["uploads/report.pdf" := concat small_upload]}))
    by reflexivity.
  split; [reflexivity|]. split; [exact Hsave|].
  exact (upload_succeeds_whatever_the_vector_db "report.pdf"
           (Data <$> small_upload) fresh 5 _
           report_file report_file "files/report.pdf" eq_refl Hsave eq_refl eq_refl eq_refl eq_refl).
Defined.

Lemma build_vector_db_without_api_key_witness :
  instance fresh = None ∧
  @build_vector_db backend runtime_without_key loader report_file
    "report.pdf" "uploads/report.pdf" fresh =
    (Done (Failed "OPENAI_API_KEY is required for embeddings"), fresh).
Proof.
  split; [reflexivity|].
  exact (@build_vector_db_without_api_key backend runtime_without_key loader
           report_file "report.pdf" "uploads/report.pdf" fresh eq_refl (or_introl eq_refl)).
Defined.

Lemma delete_single_file_first_match_witness :
  get_pdf_loader = Done tt ∧
  delete_single_file three_files "files/b" =
    Done {| delete_success := true;
            delete_message := "파일이 삭제되었습니다: first b.pdf" |} ∧
  delete_single_file three_files "files/c" =
    Raised (Http {| status_code := 404;
                    detail := "파일을 찾을 수 없습니다: files/c" |}).
Proof.
  split; [reflexivity|].
  destruct (delete_single_file_first_match three_files "files/b" eq_refl)
    as [_ Hfound].
  destruct (delete_single_file_first_match three_files "files/c" eq_refl)
    as [Hnone _].
  split.
  - apply (Hfound (take 1 three_files)
             ({| gname := "files/b"; gdisplay := "first b.pdf" |} : @GeminiFile loader)
             (drop 2 three_files)).
    + reflexivity.
    + repeat constructor. discriminate.
    + reflexivity.
  - apply Hnone. repeat constructor; discriminate.
Defined.

Lemma build_report :
  build_vector_db report_file "report.pdf" "uploads/report.pdf" fresh =
    (Done (Info {| info_file_name := "report.pdf";
                   total_chunks := 1;
                   embedding_dimension := 2 |}), after_upload).
Proof. reflexivity. Qed.

Lemma upload_documents_metadata_witness :
  build_vector_db report_file "report.pdf" "uploads/report.pdf" fresh =
    (Done (Info {| info_file_name := "report.pdf";
                   total_chunks := 1;
                   embedding_dimension := 2 |}), after_upload) ∧
  ∃ full_text chunks vs cache,
    loader_extract_full_text (uploads fresh) report_file "uploads/report.pdf" =
      Done full_text ∧
    split_text chunk_size chunk_overlap separators full_text = Return chunks ∧
    from_documents
      (make_documents chunks "report.pdf"
         (Some (upload_metadata report_file "report.pdf"))) = Return vs ∧
    instance after_upload = Some cache ∧ cache !! "report.pdf" = Some vs ∧
    {| info_file_name := "report.pdf"; total_chunks := 1;
       embedding_dimension := 2 |} =
      {| info_file_name := "report.pdf";
         total_chunks := index_ntotal vs;
         embedding_dimension := index_d vs |} ∧
    ∀ (i : nat) chunk, chunks !! i = Some chunk →
      make_documents chunks "report.pdf"
        (Some (upload_metadata report_file "report.pdf")) !! i =
        Some {| page_content := chunk;
                metadata :=
                  <["display_name" := VStr "report.pdf"]>
                    (<["gemini_file_uri" := gemini_uri report_file]>
                       (<["total_chunks" := VInt (Z.of_nat (length chunks))]>
                          (<["chunk_index" := VInt (Z.of_nat i)]>
                             {["source" := VStr "report.pdf"]}))) |}.
Proof.
  split; [exact build_report|].
  exact (upload_documents_metadata report_file "report.pdf" "uploads/report.pdf"
           fresh after_upload _ build_report).
Defined.

Lemma ingest_upper :
  create_vector_store_from_text fox "report.PDF" None empty =
    (Return upper_store, ingested empty "report.PDF" upper_store).
Proof. reflexivity. Qed.

Lemma report_upper_no_slash : ¬ Names.contains "/" "report.PDF".
Proof.
  unfold Names.contains. simpl.
  intros H; repeat (apply elem_of_cons in H as [H|H]; [discriminate H|]);
    by apply elem_of_nil in H.
Qed.

Lemma accepted_name_directory_witness :
  is_pdf_name "report.PDF" = true ∧
  ¬ Names.contains "/" "report.PDF" ∧
  (4 < String.length "report.PDF")%nat ∧
  create_vector_store_from_text fox "report.PDF" None empty =
    (Return upper_store, ingested empty "report.PDF" upper_store) ∧
  Pathlib.stem "report.PDF" =
    String.substring 0 (String.length "report.PDF" - 4) "report.PDF" ∧
  disk (ingested empty "report.PDF" upper_store)
    !! String.substring 0 (String.length "report.PDF" - 4) "report.PDF" =
    Some {| files := save_local upper_store; writable := true |}.
Proof.
  assert (H3 : (4 < String.length "report.PDF")%nat) by (simpl; lia).
  split; [reflexivity|]. split; [exact report_upper_no_slash|].
  split; [exact H3|]. split; [exact ingest_upper|].
  exact (accepted_name_directory "report.PDF" empty
           (ingested empty "report.PDF" upper_store) fox None upper_store
           eq_refl report_upper_no_slash H3 ingest_upper).
Defined.

End RouteRuns.

(** ** The web search service *)

Section SearchFacts.
Context `{R : Runtime} `{T : SearchService.Tavily}.
Import SearchService.
Local Open Scope list_scope.

Lemma append_assoc (a b c : string) : (a +:+ b) +:+ c = a +:+ (b +:+ c).
Proof.
  induction a as [|x a IH]; [reflexivity|].
  change (String x ((a +:+ b) +:+ c) = String x (a +:+ (b +:+ c))).
  by rewrite IH.
Qed.

Lemma append_empty_r (a : string) : a +:+ "" = a.
Proof.
  induction a as [|x a IH]; [reflexivity|].
  change (String x (a +:+ "") = String x a). by rewrite IH.
Qed.

Lemma length_list_ascii_of_string (s : string) :
  length (list_ascii_of_string s) = String.length s.
Proof. induction s as [|c s IH]; [reflexivity|]. simpl. by rewrite IH. Qed.

Lemma len_sized (v : pyval float) :
  sized v = true → ∃ n, len v = Done n.
Proof. destruct v; try discriminate; intros _; simpl; eauto. Qed.

Lemma len_unsized (v : pyval float) :
  sized v = false → len v = Raised (Other (no_len v)).
Proof. destruct v; try discriminate; reflexivity. Qed.

Lemma iter_length (v : pyval float) (items : list (pyval float)) (n : nat) :
  iter v = Done items → len v = Done n → n = length items.
Proof.
  destruct v; try discriminate; simpl; intros [= <-] [= <-].
  - by rewrite length_fmap, length_list_ascii_of_string.
  - reflexivity.
  - by rewrite !length_fmap, length_map_to_list.
Qed.

Lemma collect_sources_length (items : list (pyval float)) :
  ∀ acc l, collect_sources items acc = Done l →
           length l = (length acc + length items)%nat.
Proof.
  induction items as [|result items IH]; intros acc l; simpl.
  - intros [= <-]. lia.
  - destruct result; try discriminate. simpl. intros Hl.
    apply IH in Hl. rewrite length_app in Hl. simpl in Hl. lia.
Qed.

Lemma format_result_well_formed (idx : nat) (result : pyval float) (text : string) :
  well_formed result = true →
  ∃ block, format_result idx result text = Done (text +:+ block).
Proof.
  destruct result as [| | | | | |d]; try discriminate.
  unfold well_formed, format_result, get. cbn [mbind outcome_bind].
  destruct (from_option id (PInt 0) (d !! "score")) as [| |n| | | |] eqn:Hs;
    unfold number, format_2f; try discriminate;
    try (destruct (too_large_for_float n); [discriminate|]);
    intros _; eexists; cbn [mbind outcome_bind mret outcome_ret];
    rewrite !append_assoc; reflexivity.
Qed.

Lemma format_result_malformed (idx : nat) (result : pyval float) (text : string) :
  well_formed result = false →
  ∃ msg, format_result idx result text = Raised (Other msg).
Proof.
  destruct result as [| | | | | |d];
    try (intros _; eexists; reflexivity).
  unfold well_formed, format_result, get. cbn [mbind outcome_bind].
  destruct (from_option id (PInt 0) (d !! "score")) as [| |n| | | |] eqn:Hs;
    unfold number, format_2f; try discriminate;
    try (destruct (too_large_for_float n); [|discriminate]);
    intros _; eexists; reflexivity.
Qed.

Lemma format_results_well_formed (items : list (pyval float)) :
  Forall (λ result, well_formed result = true) items →
  ∀ idx text, ∃ rest, format_results idx items text = Done (text +:+ rest).
Proof.
  induction 1 as [|result items Hresult _ IH]; intros idx text; simpl.
  - exists "". by rewrite append_empty_r.
  - destruct (format_result_well_formed idx result text Hresult) as [block ->].
    simpl. destruct (IH (S idx) (text +:+ block)) as [rest ->].
    exists (block +:+ rest). by rewrite append_assoc.
Qed.

Lemma format_results_malformed (items : list (pyval float)) :
  Exists (λ result, well_formed result = false) items →
  ∀ idx text, ∃ msg, format_results idx items text = Raised (Other msg).
Proof.
  induction items as [|result items IH]; intros Hbad idx text.
  - by apply Exists_nil in Hbad.
  - simpl. destruct (well_formed result) eqn:Hresult.
    + destruct (format_result_well_formed idx result text Hresult) as [block ->].
      simpl. apply IH. apply Exists_cons in Hbad as [Hbad|Hbad]; [congruence|done].
    + destruct (format_result_malformed idx result text Hresult) as [msg ->].
      simpl. eauto.
Qed.

Lemma search_on_a_list (query : string) (max_results : Z) (search_depth : string)
    (include_domains exclude_domains : option (list string))
    (dict : gmap string (pyval float)) (items : list (pyval float)) :
  client_search (search_params query max_results search_depth include_domains
                   exclude_domains) = Done (PDict dict) →
  dict !! "results" = Some (PList items) →
  search query max_results search_depth include_domains exclude_domains =
    Done (PDict dict).
Proof. intros Hc Hr. unfold search. rewrite Hc. simpl. by rewrite Hr. Qed.

(** X25: [search] returns exactly when the client returns a dict whose
    [results], when it has any, has a length, and then returns the client's
    response unchanged; whatever else happens, it raises an
    [HTTPException] with status 500 whose detail starts with the search
    failure message. *)
Theorem search_returns_the_checked_response (query : string) (max_results : Z)
    (search_depth : string) (include_domains exclude_domains : option (list string)) :
  (∀ response,
     search query max_results search_depth include_domains exclude_domains =
       Done response ↔
     client_search (search_params query max_results search_depth
                      include_domains exclude_domains) = Done response ∧
     ∃ dict, response = PDict dict ∧
             sized (from_option id (PList []) (dict !! "results")) = true) ∧
  (∀ r,
     search query max_results search_depth include_domains exclude_domains =
       Raised r →
     ∃ msg, r = Http {| status_code := 500;
                        detail := ("Failed to perform web search: " +:+ msg)%string |}).
Proof.
  unfold search.
  destruct (client_search _) as [response|e]; simpl.
  - destruct response as [| | | | | |d]; simpl;
      try (split; [intros response'; split; [discriminate|];
                   intros [[= <-] (dict & [=] & _)]
                  |intros r [= <-]; eauto]).
    destruct (sized (from_option id (PList []) (d !! "results"))) eqn:Hsized.
    + destruct (len_sized _ Hsized) as [n ->]. simpl. split.
      * intros response'. split.
        -- intros [= <-]. split; [done|]. eauto.
        -- by intros [[= <-] _].
      * discriminate.
    + rewrite (len_unsized _ Hsized). simpl. split.
      * intros response'. split; [discriminate|].
        intros [[= <-] (dict & [= <-] & Hdict)]. congruence.
      * intros r [= <-]. eauto.
  - split.
    + intros response. split; [discriminate|]. by intros [[=] _].
    + intros r [= <-]. eauto.
Qed.

Lemma format_result_prefix (idx : nat) (result : pyval float) (text t : string) :
  format_result idx result text = Done t → ∃ block, t = text +:+ block.
Proof.
  destruct (well_formed result) eqn:Hresult.
  - destruct (format_result_well_formed idx result text Hresult) as [block ->].
    intros [= <-]. eauto.
  - by destruct (format_result_malformed idx result text Hresult) as [msg ->].
Qed.

Lemma format_results_prefix (items : list (pyval float)) :
  ∀ idx text t,
    format_results idx items text = Done t → ∃ rest, t = text +:+ rest.
Proof.
  induction items as [|result items IH]; intros idx text t; simpl.
  - intros [= <-]. exists "". by rewrite append_empty_r.
  - destruct (format_result idx result text) as [t'|e] eqn:Hresult;
      [|discriminate].
    simpl. intros Ht. apply format_result_prefix in Hresult as [block ->].
    apply IH in Ht as [rest ->]. exists (block +:+ rest).
    by rewrite append_assoc.
Qed.

(** X26: [search_and_format] never raises: whatever the client answers or
    raises, a text is returned, and it is the no-results text, or starts
    with the header of the query, or starts with the failure text. *)
Theorem search_and_format_never_raises (query : string) (max_results : Z)
    (search_depth : string) :
  ∃ text,
    search_and_format query max_results search_depth = Done text ∧
    (text = no_results ∨
     (∃ rest, text = (header query +:+ rest)%string) ∨
     (∃ msg, text = (format_failed +:+ msg)%string)).
Proof.
  unfold search_and_format, otry.
  destruct (search _ _ _ _ _) as [response|e]; simpl; [|eauto 6].
  destruct (get response _ _) as [results|e]; simpl; [|eauto 6].
  destruct (truthy results); simpl; [|eauto].
  destruct (iter results) as [items|e]; simpl; [|eauto 6].
  destruct (format_results 1 items (header query)) as [t|e] eqn:Ht; [|eauto 6].
  apply format_results_prefix in Ht as [rest ->]. eauto 6.
Qed.

(** X27: when the client raises, [search_and_format] returns the failure
    text followed by [str()] of the 500 that [search] made of the client's
    exception: the message is wrapped twice. *)
Theorem client_failure_is_wrapped_twice (query : string) (max_results : Z)
    (search_depth : string) (e : raised) :
  client_search (search_params query max_results search_depth None None) =
    Raised e →
  search_and_format query max_results search_depth =
    Done (format_failed +:+
          str_http {| status_code := 500;
                      detail := "Failed to perform web search: " +:+
                                str_raised e |})%string.
Proof.
  intros He. unfold search_and_format, search. rewrite He. reflexivity.
Qed.

(** X28: [search_and_format] on a response whose [results] is a list: an
    empty list gives the no-results text; a list of results that are all
    dicts whose score, when they have one, is a number that has a float
    gives a text that starts with the header of the query; one result that
    is not such a dict (not a dict, a score that is no number, an integer
    score too large for a float) makes the whole answer the failure text,
    whatever the other results are. *)
Theorem search_and_format_on_a_list (query : string) (max_results : Z)
    (search_depth : string) (dict : gmap string (pyval float))
    (items : list (pyval float)) :
  client_search (search_params query max_results search_depth None None) =
    Done (PDict dict) →
  dict !! "results" = Some (PList items) →
  (items = [] →
   search_and_format query max_results search_depth = Done no_results) ∧
  (items ≠ [] →
   Forall (λ result, well_formed result = true) items →
   ∃ rest, search_and_format query max_results search_depth =
             Done (header query +:+ rest)%string) ∧
  (Exists (λ result, well_formed result = false) items →
   ∃ msg, search_and_format query max_results search_depth =
            Done (format_failed +:+ msg)%string).
Proof.
  intros Hc Hr. unfold search_and_format.
  rewrite (search_on_a_list _ _ _ _ _ _ _ Hc Hr). simpl. rewrite Hr. simpl.
  split; [|split].
  - intros ->. reflexivity.
  - intros Hne Hgood. rewrite bool_decide_eq_false_2 by done. simpl.
    destruct (format_results_well_formed items Hgood 1 (header query))
      as [rest ->].
    eauto.
  - intros Hbad.
    assert (Hne : items ≠ []) by (intros ->; by apply Exists_nil in Hbad).
    rewrite bool_decide_eq_false_2 by done. simpl.
    destruct (format_results_malformed items Hbad 1 (header query))
      as [msg ->].
    simpl. eauto.
Qed.

(** X29: an answer of [get_answer_with_sources] counts its sources:
    [total_results] is the number of entries of [sources]; and the only
    exception it raises is an [HTTPException] with status 500. *)
Theorem answer_counts_its_sources (query : string) (max_results : Z) :
  match get_answer_with_sources query max_results with
  | Done a => total_results a = length (sources a)
  | Raised r =>
      ∃ msg, r = Http {| status_code := 500;
                         detail := ("Failed to get answer with sources: " +:+
                                    msg)%string |}
  end.
Proof.
  unfold get_answer_with_sources.
  destruct (client_search _) as [response|e]; simpl; [|eauto].
  destruct response as [| | | | | |d]; simpl; eauto.
  destruct (iter _) as [items|e] eqn:Hiter; simpl; [|eauto].
  destruct (collect_sources items []) as [l|e] eqn:Hl; simpl; [|eauto].
  destruct (len _) as [n|e] eqn:Hn; simpl; [|eauto].
  apply collect_sources_length in Hl. rewrite Hl.
  by apply (iter_length _ _ _ Hiter).
Qed.

(** X30: [get_search_service] settles after one call: a second call gives
    the same outcome and leaves the instance as the first call left it; and
    no instance is kept exactly when the call raises. *)
Theorem get_search_service_settles (kept : option string) :
  get_search_service (get_search_service kept).2 =
    get_search_service kept ∧
  ((get_search_service kept).2 = None ↔
   ∃ r, (get_search_service kept).1 = Raised r).
Proof.
  unfold get_search_service.
  destruct kept as [service|].
  - simpl. split; [done|]. split; [discriminate|]. by intros [r [=]].
  - destruct (init None) as [service|r]; cbn [fst snd].
    + split; [done|]. split; [discriminate|]. by intros [r [=]].
    + split; [done|]. split; [eauto|done].
Qed.

End SearchFacts.

(** ** The web search service, run on the instance *)

Module WebRuns.
Import SearchService RouteFixture WebFixture.
Local Open Scope list_scope.

Lemma client_failure_is_wrapped_twice_witness :
  client_search (search_params "offline" 5 "advanced" None None) =
    Raised (Other "connection refused") ∧
  search_and_format "offline" 5 "advanced" =
    Done "검색 중 오류가 발생했습니다: 500: Failed to perform web search: connection refused".
Proof.
  split; [reflexivity|].
  exact (client_failure_is_wrapped_twice "offline" 5 "advanced"
           (Other "connection refused") eq_refl).
Defined.

Lemma search_and_format_on_a_list_witness :
  client_search (search_params "mixed" 5 "advanced" None None) =
    Done (PDict {["results" := PList [scored; unscored]]}) ∧
  Exists (λ result, well_formed result = false) [scored; unscored] ∧
  (∃ msg, search_and_format "mixed" 5 "advanced" =
            Done (format_failed +:+ msg)%string) ∧
  client_search (search_params "huge" 5 "advanced" None None) =
    Done (PDict {["results" := PList [scored; oversized]]}) ∧
  Exists (λ result, well_formed result = false) [scored; oversized] ∧
  search_and_format "huge" 5 "advanced" =
    Done (format_failed +:+ "int too large to convert to float")%string ∧
  (∃ msg, search_and_format "huge" 5 "advanced" =
            Done (format_failed +:+ msg)%string).
Proof.
  assert (Hbad : Exists (λ result, well_formed result = false) [scored; unscored])
    by (right; left; reflexivity).
  assert (Hbig : Exists (λ result, well_formed result = false) [scored; oversized])
    by (right; left; reflexivity).
  split; [reflexivity|]. split; [exact Hbad|].
  split.
  { exact (proj2 (proj2 (search_and_format_on_a_list "mixed" 5 "advanced"
                           {["results" := PList [scored; unscored]]}
                           [scored; unscored] eq_refl eq_refl)) Hbad). }
  split; [reflexivity|]. split; [exact Hbig|]. split; [reflexivity|].
  exact (proj2 (proj2 (search_and_format_on_a_list "huge" 5 "advanced"
                         {["results" := PList [scored; oversized]]}
                         [scored; oversized] eq_refl eq_refl)) Hbig).
Defined.

End WebRuns.
